(** * The chat persistence layer of [database.py]

    A shallow embedding of the [Messages] table and of the five store
    operations [save_message], [get_chat_history], [delete_chat],
    [get_chat_folders] and [search_messages], followed by the properties
    the specification states about them.

    The table lives in SQLite and is reached through peewee; the embedding
    keeps the rows as a list in rowid order and writes out what each
    statement of the source does on it. *)

From Stdlib Require Import ZArith List String Ascii Bool Lia.
From Stdlib Require Import Sorted Permutation.
Import ListNotations.

Local Open Scope string_scope.
Local Open Scope list_scope.
Local Open Scope Z_scope.

(* ================================================================= *)
(** ** Python control flow: returning and raising *)

Module Py.

(** The errors peewee raises for a storage failure.  All of them derive
    from [peewee.PeeweeException], hence from [Exception]. *)
Inductive db_error : Type :=
  | OperationalError   (* cannot open the file, database locked, disk full *)
  | IntegrityError     (* a constraint of the table failed *)
  | InterfaceError
  | DatabaseError.

(** What a [raise] can carry.  [OverflowError] is what [sqlite3] raises
    for an integer parameter that does not fit 64 bits; it derives from
    [Exception].  [KeyboardInterrupt] and [SystemExit] derive from
    [BaseException] only, so [except Exception] lets them through. *)
Inductive exn : Type :=
  | PeeweeException (e : db_error)
  | OverflowError
  | KeyboardInterrupt
  | SystemExit.

Definition is_Exception (e : exn) : bool :=
  match e with
  | PeeweeException _ | OverflowError => true
  | KeyboardInterrupt | SystemExit => false
  end.

(** The result of running a block: it returned a value or it raised. *)
Inductive outcome (A : Type) : Type :=
  | Returned (a : A)
  | Raised (e : exn).

Arguments Returned {A} a.
Arguments Raised {A} e.

(** [if x:] on an optional text: [None] and the empty text are falsy. *)
Definition truthy (x : option string) : bool :=
  match x with
  | None => false
  | Some s => negb (String.eqb s "")
  end.

End Py.

Import Py.

(* ================================================================= *)
(** ** The data model *)

(** A point in time as [datetime.now()] reads it, counted in microseconds. *)
Definition datetime := Z.

(** One row of the table [messages] (class [Messages] over [BaseModel]). *)
Record Messages : Type := mkMessages {
  id         : Z;
  question   : string;
  answer     : string;
  timestamp  : datetime;
  chat_id    : string;
  created_at : datetime;
  updated_at : datetime
}.

(** The process-wide handle [db]: whether its connection is open, and the
    rows of the table in rowid order. *)
Record Database : Type := mkDatabase {
  is_open : bool;
  rows    : list Messages
}.

(** What the storage medium does during one operation: [db.connect] may
    fail, and the statement may fail when it is executed. *)
Record Faults : Type := mkFaults {
  connect_error : option db_error;
  execute_error : option db_error
}.

Definition no_faults : Faults := mkFaults None None.

Definition healthy (f : Faults) : bool :=
  match connect_error f, execute_error f with
  | None, None => true
  | _, _ => false
  end.

(** The readings of [datetime.now()] during [save_message]: the argument
    [timestamp=datetime.now()], the default of [created_at], and the
    assignment to [updated_at] in [BaseModel.save]. *)
Record Clock : Type := mkClock {
  now         : datetime;
  now_created : datetime;
  now_updated : datetime
}.

Definition default_chat_id : string := "default".
Definition default_history_limit : Z := 50.
Definition default_search_limit : Z := 10.

(* ================================================================= *)
(** ** Stateful, fallible computations over the database *)

Definition M (A : Type) : Type := Database -> outcome A * Database.

Definition ret {A} (a : A) : M A := fun d => (Returned a, d).

Definition raise {A} (e : exn) : M A := fun d => (Raised e, d).

Definition bind {A B} (m : M A) (k : A -> M B) : M B :=
  fun d =>
    match m d with
    | (Returned a, d') => k a d'
    | (Raised e, d') => (Raised e, d')
    end.

Declare Scope db_scope.
Delimit Scope db_scope with db.
Notation "x <- m ;; k" := (bind m (fun x => k))
  (at level 61, m at next level, right associativity) : db_scope.
Notation "m ;;; k" := (bind m (fun _ => k))
  (at level 61, right associativity) : db_scope.

(** [try: body  finally: cleanup]: the cleanup runs on every exit path and
    the outcome of the body stands. *)
Definition try_finally {A} (body : M A) (cleanup : Database -> Database) : M A :=
  fun d => let (r, d') := body d in (r, cleanup d').

(** [try: body  except Exception as e: handler]. *)
Definition try_except_Exception {A} (body : M A) (handler : exn -> M A) : M A :=
  fun d =>
    match body d with
    | (Returned a, d') => (Returned a, d')
    | (Raised e, d') =>
        if is_Exception e then handler e d' else (Raised e, d')
    end.

(** [db.connect(reuse_if_open=True)]. *)
Definition db_connect (f : Faults) : M unit :=
  fun d =>
    if is_open d then (Returned tt, d)
    else match connect_error f with
         | Some e => (Raised (PeeweeException e), d)
         | None => (Returned tt, mkDatabase true (rows d))
         end.

(** [if not db.is_closed(): db.close()]. *)
Definition db_close (d : Database) : Database :=
  if is_open d then mkDatabase false (rows d) else d.

(** The context manager [db_connection]. *)
Definition db_connection {A} (f : Faults) (body : M A) : M A :=
  try_finally (bind (db_connect f) (fun _ => body)) db_close.

(** One statement sent to the storage engine: it fails as a whole, leaving
    the table as it was, or runs as a whole. *)
Definition execute {A} (f : Faults) (stmt : M A) : M A :=
  fun d =>
    match execute_error f with
    | Some e => (Raised (PeeweeException e), d)
    | None => stmt d
    end.

(* ================================================================= *)
(** ** What the storage engine does with each statement *)

Module Sql.

(** [ORDER BY key DESC].  SQL leaves the order among equal keys open; here
    the row met later in the scan comes first among them. *)
Fixpoint insert_desc {A} (key : A -> Z) (x : A) (l : list A) : list A :=
  match l with
  | [] => [x]
  | y :: l' =>
      if key y <? key x then x :: y :: l' else y :: insert_desc key x l'
  end.

Definition order_by_desc {A} (key : A -> Z) (l : list A) : list A :=
  fold_right (insert_desc key) [] l.

(** An integer that SQLite can take as a parameter: it fits 64 bits. *)
Definition in_int64 (k : Z) : bool :=
  (- 2 ^ 63 <=? k) && (k <=? 2 ^ 63 - 1).

(** [LIMIT k], for a [k] that was bound: a negative [k] puts no bound on
    the number of rows; otherwise the first [k] rows are kept, all of them
    when there are no more than [k]. *)
Definition apply_limit {A} (k : option Z) (l : list A) : list A :=
  match k with
  | None => l
  | Some k =>
      if k <? 0 then l
      else if Z.of_nat (List.length l) <=? k then l
      else firstn (Z.to_nat k) l
  end.

(** SQLite's [LIKE] compares letters of the ASCII range without regard to
    case and every other character exactly. *)
Definition tolower (a : ascii) : ascii :=
  let n := N_of_ascii a in
  if ((65 <=? n) && (n <=? 90))%N then ascii_of_N (n + 32) else a.

Fixpoint like_prefix (p s : string) : bool :=
  match p, s with
  | EmptyString, _ => true
  | String _ _, EmptyString => false
  | String a p', String b s' =>
      Ascii.eqb (tolower a) (tolower b) && like_prefix p' s'
  end.

(** [p] occurs somewhere in [s], letters compared as [LIKE] compares
    them: the pattern [%p%]. *)
Fixpoint like_contains (s p : string) : bool :=
  like_prefix p s ||
  match s with
  | EmptyString => false
  | String _ s' => like_contains s' p
  end.

(** [s] is [p], and [s] ends with [p]: the pattern [%p]. *)
Fixpoint like_equal (p s : string) : bool :=
  match p, s with
  | EmptyString, EmptyString => true
  | String a p', String b s' =>
      Ascii.eqb (tolower a) (tolower b) && like_equal p' s'
  | _, _ => false
  end.

Fixpoint like_ends_with (s p : string) : bool :=
  like_equal p s ||
  match s with
  | EmptyString => false
  | String _ s' => like_ends_with s' p
  end.

(** [LIKE] reads its pattern and its text as C strings: each ends at its
    first NUL character. *)
Fixpoint c_string (s : string) : string :=
  match s with
  | EmptyString => EmptyString
  | String c s' =>
      if Ascii.eqb c Ascii.zero then EmptyString else String c (c_string s')
  end.

Fixpoint has_nul (s : string) : bool :=
  match s with
  | EmptyString => false
  | String c s' => Ascii.eqb c Ascii.zero || has_nul s'
  end.

(** The characters peewee escapes in the text of a [contains]: when one
    of them occurs, each gets a backslash in front. *)
Definition is_wildcard (c : ascii) : bool :=
  let n := N_of_ascii c in ((n =? 37) || (n =? 95) || (n =? 92))%N.

Fixpoint has_wildcard (s : string) : bool :=
  match s with
  | EmptyString => false
  | String c s' => is_wildcard c || has_wildcard s'
  end.

Fixpoint escape_like (s : string) : string :=
  match s with
  | EmptyString => EmptyString
  | String c s' =>
      if is_wildcard c
      then String (ascii_of_nat 92) (String c (escape_like s'))
      else String c (escape_like s')
  end.

(** The pattern peewee sends for [field.contains(q)]. *)
Definition like_pattern (q : string) : string :=
  ("%" ++ (if has_wildcard q then escape_like q else q) ++ "%")%string.

(** The bytes of a text in UTF-8: two for a character from 128 on. *)
Fixpoint utf8_length (s : string) : Z :=
  match s with
  | EmptyString => 0
  | String c s' =>
      (if (N_of_ascii c <? 128)%N then 1 else 2) + utf8_length s'
  end.

(** [LIKE] refuses a pattern of more than 50000 bytes ("LIKE or GLOB
    pattern too complex"). *)
Definition pattern_too_complex (q : string) : bool :=
  50000 <? utf8_length (like_pattern q).

(** [field.contains(q)]: peewee sends [field ILIKE pattern], which
    [SqliteDatabase] writes as SQLite's [LIKE].  With the wildcard
    characters of [q] escaped, [q] has to occur somewhere in the field,
    letters compared as [LIKE] compares them; the field counts up to its
    first NUL, and a NUL in [q] cuts the pattern there, closing [%] and
    all, so that the field has to end with what is left of [q]. *)
Definition contains (s q : string) : bool :=
  if has_nul q
  then like_ends_with (c_string s) (c_string q)
  else like_contains (c_string s) q.

(** A [SELECT] over [messages] as peewee's query builder accumulates it. *)
Inductive ordering : Type := Unordered | TimestampDesc.

Record Query : Type := mkQuery {
  q_where    : Messages -> bool;
  q_order_by : ordering;
  q_limit    : option Z
}.

Definition select : Query := mkQuery (fun _ => true) Unordered None.

Definition order_by_timestamp_desc (q : Query) : Query :=
  mkQuery (q_where q) TimestampDesc (q_limit q).

Definition where_ (p : Messages -> bool) (q : Query) : Query :=
  mkQuery (fun m => q_where q m && p m) (q_order_by q) (q_limit q).

Definition limit (k : Z) (q : Query) : Query :=
  mkQuery (q_where q) (q_order_by q) (Some k).

Definition apply_order (o : ordering) (l : list Messages) : list Messages :=
  match o with
  | Unordered => l
  | TimestampDesc => order_by_desc timestamp l
  end.

(** The rows a query yields: [WHERE], then [ORDER BY], then [LIMIT]. *)
Definition run (q : Query) (t : list Messages) : list Messages :=
  apply_limit (q_limit q) (apply_order (q_order_by q) (filter (q_where q) t)).

(** The unique composite index on [(chat_id, timestamp)]. *)
Definition index_key (m : Messages) : string * datetime :=
  (chat_id m, timestamp m).

Definition index_taken (t : list Messages) (c : string) (ts : datetime) : bool :=
  existsb (fun m => String.eqb (chat_id m) c && (timestamp m =? ts)) t.

(** The rowid an [INTEGER PRIMARY KEY] column gets on insert: one more than
    the largest in the table. *)
Definition next_rowid (t : list Messages) : Z :=
  1 + fold_right (fun m acc => Z.max (id m) acc) 0 t.

(** [DELETE FROM messages WHERE p]: the table left, and the row count. *)
Definition delete_where (p : Messages -> bool) (t : list Messages)
  : list Messages * Z :=
  let kept := filter (fun m => negb (p m)) t in
  (kept, Z.of_nat (List.length t) - Z.of_nat (List.length kept)).

(** The order of texts in an index: character by character, a text before
    the texts it starts. *)
Fixpoint insert_text (c : string) (l : list string) : list string :=
  match l with
  | [] => [c]
  | y :: l' => if String.leb c y then c :: y :: l' else y :: insert_text c l'
  end.

Definition order_by_text (l : list string) : list string :=
  fold_right insert_text [] l.

(** The row of a group the aggregate [MAX(timestamp)] is taken from; the
    bare column [question] of the same [SELECT] is read from that row. *)
Fixpoint max_by_timestamp (m : Messages) (l : list Messages) : Messages :=
  match l with
  | [] => m
  | x :: l' => max_by_timestamp (if timestamp m <? timestamp x then x else m) l'
  end.

End Sql.

(** One row of the result of [get_chat_folders]. *)
Record Folder : Type := mkFolder {
  folder_chat_id  : string;
  folder_question : string;
  last_message    : datetime
}.

Definition in_chat (c : string) (m : Messages) : bool :=
  String.eqb (chat_id m) c.

(** [SELECT chat_id, question, MAX(timestamp) AS last_message ... GROUP BY
    chat_id]: the row of one group. *)
Definition summary (t : list Messages) (c : string) : list Folder :=
  match filter (in_chat c) t with
  | [] => []
  | m :: g =>
      let top := Sql.max_by_timestamp m g in
      [mkFolder c (question top) (timestamp top)]
  end.

(** The groups come in the order of the index on [chat_id]. *)
Definition group_by_chat_id (t : list Messages) : list Folder :=
  flat_map (summary t)
           (Sql.order_by_text (nodup string_dec (map chat_id t))).

(* ================================================================= *)
(** ** The operations of [database.py] *)

Local Open Scope db_scope.

(** Binding the parameters of a statement: a limit that does not fit 64
    bits is refused before the statement runs. *)
Definition bind_parameters (q : Sql.Query) : M unit :=
  fun d =>
    match Sql.q_limit q with
    | Some k => if Sql.in_int64 k then (Returned tt, d)
                else (Raised OverflowError, d)
    | None => (Returned tt, d)
    end.

(** Evaluating [LIKE] on the first row fails when the pattern is too
    long; with no row to look at nothing is evaluated. *)
Definition like_evaluates (query : string) : M unit :=
  fun d =>
    match rows d with
    | [] => (Returned tt, d)
    | _ :: _ =>
        if Sql.pattern_too_complex query
        then (Raised (PeeweeException OperationalError), d)
        else (Returned tt, d)
    end.

(** [list(query)] inside an open connection. *)
Definition fetch (f : Faults) (q : Sql.Query) : M (list Messages) :=
  bind_parameters q ;;;
  execute f (fun d => (Returned (Sql.run q (rows d)), d)).

(** [list(query)] for a query whose [WHERE] holds a [LIKE]. *)
Definition fetch_like (f : Faults) (query : string) (q : Sql.Query)
  : M (list Messages) :=
  bind_parameters q ;;;
  like_evaluates query ;;;
  execute f (fun d => (Returned (Sql.run q (rows d)), d)).

(** [Messages.create(question=, answer=, chat_id=, timestamp=)]. *)
Definition Messages_create (f : Faults) (clk : Clock)
    (q a c : string) (ts : datetime) : M Messages :=
  execute f (fun d =>
    if Sql.index_taken (rows d) c ts
    then (Raised (PeeweeException IntegrityError), d)
    else
      let m := mkMessages (Sql.next_rowid (rows d)) q a ts c
                          (now_created clk) (now_updated clk) in
      (Returned m, mkDatabase (is_open d) (rows d ++ [m]))).

(** [initialize_database]: the table and its indexes are created when they
    are missing; stored rows are left alone. *)
Definition initialize_database (f : Faults) : M unit :=
  db_connection f (execute f (ret tt)).

Definition save_message (f : Faults) (clk : Clock)
    (question answer chat_id : string) : M bool :=
  try_except_Exception
    (db_connection f
       (Messages_create f clk question answer chat_id (now clk)) ;;;
     ret true)
    (fun _ => ret false).

Definition get_chat_history (f : Faults)
    (chat_id : option string) (limit : Z) : M (list Messages) :=
  try_except_Exception
    (db_connection f
       (let query := Sql.order_by_timestamp_desc Sql.select in
        let query :=
          if truthy chat_id
          then Sql.where_ (in_chat (match chat_id with
                                    | Some c => c
                                    | None => ""
                                    end)) query
          else query in
        fetch f (Sql.limit limit query)))
    (fun _ => ret []).

Definition delete_chat (f : Faults) (chat_id : string) : M bool :=
  try_except_Exception
    (db_connection f
       (execute f (fun d =>
          let (kept, n) := Sql.delete_where (in_chat chat_id) (rows d) in
          (Returned (0 <? n), mkDatabase (is_open d) kept))))
    (fun _ => ret false).

(** The [subquery] the source builds first is never executed (peewee
    queries are lazy) and is left out; the statement that runs is the
    grouped [SELECT] ordered by [last_message] descending.  The sorter
    keeps groups of equal [last_message] in the order they come in, so
    the groups are handed to [order_by_desc] last one first. *)
Definition get_chat_folders (f : Faults) : M (list Folder) :=
  try_except_Exception
    (db_connection f
       (execute f (fun d =>
          (Returned (Sql.order_by_desc last_message
                       (rev (group_by_chat_id (rows d)))),
           d))))
    (fun _ => ret []).

Definition search_messages (f : Faults) (query : string) (limit : Z)
  : M (list Messages) :=
  try_except_Exception
    (db_connection f
       (fetch_like f query
          (Sql.limit limit
             (Sql.order_by_timestamp_desc
                (Sql.where_
                   (fun m => Sql.contains (question m) query
                             || Sql.contains (answer m) query)
                   Sql.select)))))
    (fun _ => ret []).

(** The database file before anything was saved. *)
Definition empty_db : Database := mkDatabase false [].

(** The states the store goes through: each step is one of the five
    operations, whatever the storage medium and the clock do. *)
Inductive reachable : Database -> Prop :=
  | reach_empty : reachable empty_db
  | reach_save d f clk q a c :
      reachable d -> reachable (snd (save_message f clk q a c d))
  | reach_history d f c k :
      reachable d -> reachable (snd (get_chat_history f c k d))
  | reach_delete d f c :
      reachable d -> reachable (snd (delete_chat f c d))
  | reach_folders d f :
      reachable d -> reachable (snd (get_chat_folders f d))
  | reach_search d f q k :
      reachable d -> reachable (snd (search_messages f q k d)).

(** The unique composite index holds of the table. *)
Definition unique_index (t : list Messages) : Prop :=
  NoDup (map Sql.index_key t).

(** The texts the specification compares [LIKE] with: [q] occurs in [s]
    exactly, and [q] occurs in [s] up to the case of ASCII letters. *)
Definition substring (q s : string) : Prop :=
  exists pre post, s = (pre ++ q ++ post)%string.

Fixpoint fold_case (s : string) : string :=
  match s with
  | EmptyString => EmptyString
  | String a s' => String (Sql.tolower a) (fold_case s')
  end.

Definition substring_nocase (q s : string) : Prop :=
  exists pre mid post,
    s = (pre ++ mid ++ post)%string /\ fold_case mid = fold_case q.

(** A list of messages whose timestamps go strictly down, and one whose
    timestamps never go up. *)
Definition strictly_descending (l : list Messages) : Prop :=
  StronglySorted (fun a b => timestamp b < timestamp a) l.

Definition newest_first (l : list Messages) : Prop :=
  StronglySorted (fun a b => timestamp b <= timestamp a) l.

(** Whether the storage medium makes the operation fail: the connection
    cannot be opened (an open one is reused), or the statement fails. *)
Definition storage_fails (f : Faults) (d : Database) : bool :=
  (negb (is_open d) &&
   match connect_error f with Some _ => true | None => false end)
  || match execute_error f with Some _ => true | None => false end.

(** Whether a [SELECT] with limit [k] fails: the storage medium fails, or
    [k] cannot be bound. *)
Definition query_fails (f : Faults) (k : Z) (d : Database) : bool :=
  storage_fails f d || negb (Sql.in_int64 k).

(** Whether a search fails: as a [SELECT], or because of its pattern. *)
Definition search_fails (f : Faults) (q : string) (k : Z) (d : Database)
  : bool :=
  query_fails f k d || Sql.pattern_too_complex q.

(** The row [save_message] writes. *)
Definition new_row (t : list Messages) (clk : Clock) (q a c : string)
  : Messages :=
  mkMessages (Sql.next_rowid t) q a (now clk) c
             (now_created clk) (now_updated clk).

(** The rows [get_chat_history(c)] selects: those of conversation [c],
    all rows when [c] is the empty text. *)
Definition selected (c : string) (m : Messages) : bool :=
  if String.eqb c "" then true else in_chat c m.

(** The rows of a search: [WHERE question LIKE .. OR answer LIKE ..]. *)
Definition matches (q : string) (m : Messages) : bool :=
  Sql.contains (question m) q || Sql.contains (answer m) q.

(** [q] occurs in [s] exactly, as a test. *)
Fixpoint prefixb (p s : string) : bool :=
  match p, s with
  | EmptyString, _ => true
  | String _ _, EmptyString => false
  | String a p', String b s' => Ascii.eqb a b && prefixb p' s'
  end.

Fixpoint substringb (q s : string) : bool :=
  prefixb q s ||
  match s with
  | EmptyString => false
  | String _ s' => substringb q s'
  end.

(* ================================================================= *)
(** ** Scenarios *)

Module Scenario.

Definition at_time (t : datetime) : Clock := mkClock t t t.

Definition offline : Faults := mkFaults (Some OperationalError) None.

(** The scenario of the specification: two saves into ["c1"]. *)
Definition db1 : Database :=
  snd (save_message no_faults (at_time 1) "What is AI?" "AI is..." "c1" empty_db).

Definition db2 : Database :=
  snd (save_message no_faults (at_time 2) "Follow-up" "More info" "c1" db1).

(** A conversation whose [chat_id] is the empty text, next to ["c1"]. *)
Definition db3 : Database :=
  snd (save_message no_faults (at_time 1) "Hello" "Hi" "" db2).

Definition db4 : Database :=
  snd (save_message no_faults (at_time 2) "Again" "Hi again" "" db3).

(** A conversation ["c"] of [n] messages, saved at the times 2 to [n + 1]. *)
Fixpoint busy (n : nat) : Database :=
  match n with
  | O => empty_db
  | S n' =>
      snd (save_message no_faults (at_time (Z.of_nat n + 1)) "Q" "A" "c"
             (busy n'))
  end.

Definition row1 : Messages := mkMessages 1 "What is AI?" "AI is..." 1 "c1" 1 1.
Definition row2 : Messages := mkMessages 2 "Follow-up" "More info" 2 "c1" 2 2.
Definition row3 : Messages := mkMessages 3 "Hello" "Hi" 1 "" 1 1.
Definition row4 : Messages := mkMessages 4 "Again" "Hi again" 2 "" 2 2.

End Scenario.

(* ================================================================= *)
(** ** The interaction shell of [app.py]

    The page script is run from top to bottom on every interaction; what
    is embedded here is what a run changes: the session state and, through
    the store operations, the table.  Texts are sequences of characters
    with codes below 256. *)

Module App.

(** [s[:n]]. *)
Fixpoint take (n : nat) (s : string) : string :=
  match n, s with
  | S n', String c s' => String c (take n' s')
  | _, _ => EmptyString
  end.

(** The label of a folder in the sidebar:
    [question[:30] + "..." if len(question) > 30 else question]. *)
Definition preview (question : string) : string :=
  if (30 <? String.length question)%nat
  then (take 30 question ++ "...")%string
  else question.

(** The two lines shown for a stored message: [f"**Q:** {question[:50]}..."]
    and [f"**A:** {answer[:100]}..."]. *)
Definition question_line (m : Messages) : string :=
  ("**Q:** " ++ take 50 (question m) ++ "...")%string.

Definition answer_line (m : Messages) : string :=
  ("**A:** " ++ take 100 (answer m) ++ "...")%string.

(** [str.isspace] on the characters below 256. *)
Definition isspace (c : ascii) : bool :=
  let n := nat_of_ascii c in
  ((9 <=? n) && (n <=? 13) || (28 <=? n) && (n <=? 32)
   || (n =? 133) || (n =? 160))%nat.

Fixpoint lstrip (s : string) : string :=
  match s with
  | EmptyString => EmptyString
  | String c s' => if isspace c then lstrip s' else s
  end.

Fixpoint rstrip (s : string) : string :=
  match s with
  | EmptyString => EmptyString
  | String c s' =>
      match rstrip s' with
      | EmptyString => if isspace c then EmptyString else String c EmptyString
      | r => String c r
      end
  end.

(** [s.strip()]. *)
Definition strip (s : string) : string := rstrip (lstrip s).

(** [s.split(sep)] for a separator that is not empty: the text is scanned
    from the left; where [sep] starts, the piece read so far ends and the
    scan goes on behind the separator ([skip] counts the characters of it
    still to pass). *)
Fixpoint split_from (sep : string) (skip : nat) (cur s : string)
  : list string :=
  match s with
  | EmptyString => [cur]
  | String c s' =>
      match skip with
      | S n => split_from sep n cur s'
      | O =>
          if prefixb sep s
          then cur :: split_from sep (String.length sep - 1) EmptyString s'
          else split_from sep 0 (cur ++ String c EmptyString)%string s'
      end
  end.

Definition split (sep s : string) : list string :=
  split_from sep 0 EmptyString s.

Definition newline : string := String (ascii_of_nat 10) EmptyString.

Definition marker : string := "<assistant>:".

(** [f"<human>: {question}\n<assistant>:"]. *)
Definition format_prompt (question : string) : string :=
  ("<human>: " ++ question ++ newline ++ marker)%string.

(** An exception raised on the model side: whether its class derives from
    [Exception], and what [str(e)] gives. *)
Record error : Type := mkError {
  derives_from_Exception : bool;
  str : string
}.

Inductive result (A : Type) : Type :=
  | Done (a : A)
  | Thrown (e : error).

Arguments Done {A} a.
Arguments Thrown {A} e.

(** What the language model does during one call: [load_model()] returns
    or raises, and tokenizing the prompt, generating and decoding gives a
    text or raises. *)
Record Model : Type := mkModel {
  load_model : option error;
  complete   : string -> result string
}.

(** One entry of [st.session_state.chat_history]. *)
Record Entry : Type := mkEntry {
  entry_question  : string;
  entry_answer    : string;
  entry_timestamp : datetime
}.

(** [st.session_state]; [current_question] is absent until a run sets it. *)
Record Session : Type := mkSession {
  chat_history     : list Entry;
  current_chat_id  : string;
  model_loaded     : bool;
  current_question : option string
}.

Definition apology (e : error) : string :=
  ("I apologize, but I encountered an error: " ++ str e)%string.

(** [except Exception as e: return f"I apologize, ...: {str(e)}"]. *)
Definition on_error (e : error) : result string :=
  if derives_from_Exception e then Done (apology e) else Thrown e.

Definition generate_response (mdl : Model) (question : string) (s : Session)
  : result string * Session :=
  match load_model mdl with
  | Some e => (on_error e, s)
  | None =>
      let s' := mkSession (chat_history s) (current_chat_id s) true
                          (current_question s) in
      match complete mdl (format_prompt question) with
      | Thrown e => (on_error e, s')
      | Done response =>
          (Done (strip (last (split marker response) EmptyString)), s')
      end
  end.

(** The button "New Chat"; [new_chat_id] is
    [datetime.now().strftime("%Y%m%d_%H%M%S")]. *)
Definition on_new_chat (new_chat_id : string) (s : Session) : Session :=
  mkSession [] new_chat_id (model_loaded s) (current_question s).

(** The button "Send" with [input_text] in the field; [shown_at] is the
    reading of the clock put into the session entry.  What [save_message]
    returns is not looked at. *)
Definition on_send (mdl : Model) (f : Faults) (clk : Clock)
    (shown_at : datetime) (input_text : string)
    (s : Session) (d : Database) : result unit * Session * Database :=
  if String.eqb input_text ""
  then (Done tt, s, d)
  else
    match generate_response mdl input_text s with
    | (Thrown e, s') => (Thrown e, s', d)
    | (Done response, s') =>
        let d' := snd (save_message f clk input_text response
                         (current_chat_id s') d) in
        (Done tt,
         mkSession (mkEntry input_text response shown_at :: chat_history s')
                   (current_chat_id s') (model_loaded s') (Some ""),
         d')
    end.

(** The button "Clear Chat". *)
Definition on_clear (f : Faults) (s : Session) (d : Database)
  : Session * Database :=
  match chat_history s with
  | [] => (s, d)
  | _ :: _ =>
      (mkSession [] (current_chat_id s) (model_loaded s) (current_question s),
       snd (delete_chat f (current_chat_id s) d))
  end.

End App.

(* ================================================================= *)
(** ** The operations in closed form *)

Ltac by_cases_on_faults f d :=
  destruct d as [[|] ?]; destruct f as [[?|] [?|]];
  cbv [storage_fails connect_error execute_error is_open rows negb andb orb];
  try reflexivity.

Lemma healthy_not_fails f d : healthy f = true -> storage_fails f d = false.
Proof.
  destruct f as [[?|] [?|]]; cbv [healthy connect_error execute_error];
    try discriminate.
  intros _. destruct d as [[|] ?]; reflexivity.
Qed.

Lemma in_int64_iff k :
  Sql.in_int64 k = true <-> - 2 ^ 63 <= k <= 2 ^ 63 - 1.
Proof.
  unfold Sql.in_int64. rewrite andb_true_iff, !Z.leb_le. tauto.
Qed.

Lemma healthy_query_ok f k d :
  healthy f = true -> - 2 ^ 63 <= k <= 2 ^ 63 - 1 -> query_fails f k d = false.
Proof.
  intros Hf Hk. unfold query_fails.
  rewrite (healthy_not_fails _ _ Hf). apply in_int64_iff in Hk. now rewrite Hk.
Qed.

Lemma default_history_limit_int64 :
  - 2 ^ 63 <= default_history_limit <= 2 ^ 63 - 1.
Proof. unfold default_history_limit. lia. Qed.

Lemma default_search_limit_int64 :
  - 2 ^ 63 <= default_search_limit <= 2 ^ 63 - 1.
Proof. unfold default_search_limit. lia. Qed.

Lemma storage_fails_query_fails f k d :
  storage_fails f d = true -> query_fails f k d = true.
Proof. unfold query_fails. now intros ->. Qed.

Lemma storage_fails_search_fails f q k d :
  storage_fails f d = true -> search_fails f q k d = true.
Proof. unfold search_fails, query_fails. now intros ->. Qed.

Lemma apply_limit_nil {A} k : Sql.apply_limit k (@nil A) = [].
Proof.
  destruct k as [k|]; simpl; [|reflexivity].
  destruct (k <? 0); [reflexivity|].
  destruct (0 <=? k); [reflexivity|]. apply firstn_nil.
Qed.

Lemma save_message_eq f clk q a c d :
  save_message f clk q a c d =
  if storage_fails f d || Sql.index_taken (rows d) c (now clk)
  then (Returned false, mkDatabase false (rows d))
  else (Returned true,
        mkDatabase false (rows d ++ [new_row (rows d) clk q a c])).
Proof.
  by_cases_on_faults f d;
    cbv [save_message try_except_Exception db_connection try_finally bind
         db_connect Messages_create execute ret db_close is_Exception
         connect_error execute_error is_open rows new_row];
    destruct (Sql.index_taken _ _ _); reflexivity.
Qed.

Lemma get_chat_history_eq f c k d :
  get_chat_history f c k d =
  (Returned
     (if query_fails f k d then []
      else Sql.apply_limit (Some k)
             (Sql.order_by_desc timestamp
                (filter (fun m => match c with
                                  | Some x => if String.eqb x "" then true
                                              else in_chat x m
                                  | None => true
                                  end) (rows d)))),
   mkDatabase false (rows d)).
Proof.
  unfold get_chat_history, truthy, query_fails, fetch, bind_parameters.
  destruct c as [x|]; [destruct (String.eqb x "")|];
    cbn [Sql.limit Sql.q_limit bind]; destruct (Sql.in_int64 k);
    by_cases_on_faults f d.
Qed.

Lemma delete_chat_eq f c d :
  delete_chat f c d =
  if storage_fails f d then (Returned false, mkDatabase false (rows d))
  else
    let kept := filter (fun m => negb (in_chat c m)) (rows d) in
    (Returned (0 <? Z.of_nat (List.length (rows d)) - Z.of_nat (List.length kept)),
     mkDatabase false kept).
Proof. by_cases_on_faults f d. Qed.

Lemma get_chat_folders_eq f d :
  get_chat_folders f d =
  (Returned
     (if storage_fails f d then []
      else Sql.order_by_desc last_message (rev (group_by_chat_id (rows d)))),
   mkDatabase false (rows d)).
Proof. by_cases_on_faults f d. Qed.

Lemma search_messages_eq f q k d :
  search_messages f q k d =
  (Returned
     (if search_fails f q k d then []
      else Sql.apply_limit (Some k)
             (Sql.order_by_desc timestamp (filter (matches q) (rows d)))),
   mkDatabase false (rows d)).
Proof.
  unfold search_messages, search_fails, query_fails, fetch_like,
    bind_parameters, like_evaluates.
  cbn [Sql.limit Sql.q_limit bind].
  destruct (Sql.in_int64 k); [|by_cases_on_faults f d].
  destruct (Sql.pattern_too_complex q).
  - destruct d as [[|] [|m t]]; destruct f as [[?|] [?|]];
      cbv [storage_fails connect_error execute_error is_open rows negb
           andb orb]; try reflexivity;
      cbv [try_except_Exception db_connection try_finally bind db_connect
           execute db_close is_open rows connect_error execute_error fst snd
           Sql.run Sql.q_limit Sql.q_order_by Sql.q_where Sql.limit
           Sql.order_by_timestamp_desc Sql.where_ Sql.select Sql.apply_order
           Sql.order_by_desc filter fold_right];
      rewrite apply_limit_nil; reflexivity.
  - destruct d as [[|] [|m t]]; destruct f as [[?|] [?|]];
      cbv [storage_fails connect_error execute_error is_open rows negb
           andb orb]; reflexivity.
Qed.

(* ================================================================= *)
(** ** [ORDER BY .. DESC] and [LIMIT] on lists *)

Section OrderBy.

Context {A : Type}.
Variable key : A -> Z.

Let descending : list A -> Prop :=
  StronglySorted (fun x y => key y <= key x).

Lemma insert_desc_perm x l : Permutation (x :: l) (Sql.insert_desc key x l).
Proof.
  induction l as [|y l IH]; simpl.
  - apply Permutation_refl.
  - destruct (key y <? key x).
    + apply Permutation_refl.
    + eapply perm_trans; [apply perm_swap|]. now apply perm_skip.
Qed.

Lemma order_by_desc_perm l : Permutation l (Sql.order_by_desc key l).
Proof.
  induction l as [|x l IH]; simpl.
  - constructor.
  - eapply perm_trans; [apply perm_skip, IH|]. apply insert_desc_perm.
Qed.

Lemma order_by_desc_In l x : In x (Sql.order_by_desc key l) <-> In x l.
Proof.
  split; intro H.
  - eapply Permutation_in; [apply Permutation_sym, order_by_desc_perm|exact H].
  - eapply Permutation_in; [apply order_by_desc_perm|exact H].
Qed.

Lemma order_by_desc_length l :
  List.length (Sql.order_by_desc key l) = List.length l.
Proof. symmetry. apply Permutation_length, order_by_desc_perm. Qed.

Lemma insert_desc_sorted x l :
  descending l -> descending (Sql.insert_desc key x l).
Proof.
  unfold descending.
  induction 1 as [|y l Hl IH Hy]; simpl.
  - repeat constructor.
  - destruct (key y <? key x) eqn:E.
    + apply Z.ltb_lt in E. constructor.
      * now constructor.
      * constructor; [lia|].
        eapply Forall_impl; [|exact Hy]. simpl. intros; lia.
    + apply Z.ltb_ge in E. constructor; [exact IH|].
      rewrite Forall_forall. intros z Hz.
      apply (Permutation_in z (Permutation_sym (insert_desc_perm x l))) in Hz.
      destruct Hz as [<-|Hz]; [exact E|].
      rewrite Forall_forall in Hy. now apply Hy.
Qed.

Lemma order_by_desc_sorted l : descending (Sql.order_by_desc key l).
Proof.
  induction l as [|x l IH]; simpl.
  - constructor.
  - now apply insert_desc_sorted.
Qed.

(** A row whose key is above every other comes out first. *)
Lemma order_by_desc_newest_last l x :
  Forall (fun y => key y < key x) l ->
  Sql.order_by_desc key (l ++ [x]) = x :: Sql.order_by_desc key l.
Proof.
  induction 1 as [|y l Hy Hl IH]; simpl.
  - reflexivity.
  - rewrite IH. simpl.
    destruct (key x <? key y) eqn:E; [apply Z.ltb_lt in E; lia|reflexivity].
Qed.

Lemma apply_limit_firstn (k : Z) (l : list A) :
  0 <= k -> Sql.apply_limit (Some k) l = firstn (Z.to_nat k) l.
Proof.
  intro Hk. unfold Sql.apply_limit.
  destruct (k <? 0) eqn:E; [apply Z.ltb_lt in E; lia|].
  destruct (Z.of_nat (List.length l) <=? k) eqn:E'; [|reflexivity].
  apply Z.leb_le in E'. symmetry. apply firstn_all2. lia.
Qed.

Lemma apply_limit_prefix k (l : list A) :
  exists rest, l = Sql.apply_limit k l ++ rest.
Proof.
  destruct k as [k|]; simpl.
  - destruct (k <? 0); [exists []; now rewrite app_nil_r|].
    destruct (Z.of_nat (List.length l) <=? k).
    + exists []. now rewrite app_nil_r.
    + exists (skipn (Z.to_nat k) l). symmetry. apply firstn_skipn.
  - exists []. now rewrite app_nil_r.
Qed.

Lemma apply_limit_In k (l : list A) x : In x (Sql.apply_limit k l) -> In x l.
Proof.
  destruct (apply_limit_prefix k l) as [rest E]. intro H.
  rewrite E. apply in_or_app. now left.
Qed.

Lemma apply_limit_all (k : Z) (l : list A) :
  k < 0 \/ Z.of_nat (List.length l) <= k -> Sql.apply_limit (Some k) l = l.
Proof.
  intros H. unfold Sql.apply_limit.
  destruct (k <? 0) eqn:E; [reflexivity|].
  apply Z.ltb_ge in E.
  destruct (Z.of_nat (List.length l) <=? k); [reflexivity|].
  apply firstn_all2. lia.
Qed.

Lemma apply_limit_head (k : Z) x (l : list A) :
  k <> 0 -> In x (Sql.apply_limit (Some k) (x :: l)).
Proof.
  intro Hk. unfold Sql.apply_limit.
  destruct (k <? 0) eqn:E; [now left|].
  apply Z.ltb_ge in E.
  destruct (Z.of_nat (List.length (x :: l)) <=? k); [now left|].
  destruct (Z.to_nat k) as [|n] eqn:En; [lia|]. now left.
Qed.

End OrderBy.

(** Prefixes and selections keep what holds of a whole list. *)
Lemma StronglySorted_app_l {A} (R : A -> A -> Prop) l1 l2 :
  StronglySorted R (l1 ++ l2) -> StronglySorted R l1.
Proof.
  induction l1 as [|x l1 IH]; simpl; intro H.
  - constructor.
  - inversion H as [|? ? Hs Hf]; subst. constructor.
    + now apply IH.
    + apply Forall_app in Hf. tauto.
Qed.

Lemma StronglySorted_app_cross {A} (R : A -> A -> Prop) l1 l2 x y :
  StronglySorted R (l1 ++ l2) -> In x l1 -> In y l2 -> R x y.
Proof.
  induction l1 as [|z l1 IH]; simpl; intros Hs Hx Hy; [contradiction|].
  inversion Hs as [|? ? Hs' Hf]; subst. destruct Hx as [->|Hx].
  - rewrite Forall_forall in Hf. apply Hf, in_or_app. now right.
  - now apply IH.
Qed.

Lemma Permutation_filter_length {A} (p : A -> bool) l l' :
  Permutation l l' -> List.length (filter p l) = List.length (filter p l').
Proof.
  induction 1 as [|x l l' _ IH|x y l|l l' l'' _ IH1 _ IH2]; simpl.
  - reflexivity.
  - destruct (p x); simpl; congruence.
  - destruct (p x), (p y); reflexivity.
  - congruence.
Qed.

Lemma StronglySorted_filter {A} (R : A -> A -> Prop) p l :
  StronglySorted R l -> StronglySorted R (filter p l).
Proof.
  induction 1 as [|x l Hs IH Hf]; simpl.
  - constructor.
  - destruct (p x); [|exact IH]. constructor; [exact IH|].
    rewrite Forall_forall in *. intros y Hy.
    apply filter_In in Hy. now apply Hf.
Qed.

Lemma NoDup_app_l {A} (l1 l2 : list A) : NoDup (l1 ++ l2) -> NoDup l1.
Proof.
  induction l1 as [|x l1 IH]; simpl; intro H.
  - constructor.
  - inversion H as [|? ? Hn Hd]; subst. constructor.
    + intro Hin. apply Hn, in_or_app. now left.
    + now apply IH.
Qed.

Lemma NoDup_map_filter {A B} (g : A -> B) p l :
  NoDup (map g l) -> NoDup (map g (filter p l)).
Proof.
  induction l as [|x l IH]; simpl; intro H.
  - constructor.
  - inversion H as [|? ? Hn Hd]; subst.
    destruct (p x); [|now apply IH]. simpl. constructor; [|now apply IH].
    intro Hin. apply Hn. apply in_map_iff in Hin.
    destruct Hin as (y & Ey & Hy). apply filter_In in Hy.
    apply in_map_iff. exists y. tauto.
Qed.

(* ================================================================= *)
(** ** The unique index and the reachable states *)

Lemma index_taken_iff t c ts :
  Sql.index_taken t c ts = true <->
  exists m, In m t /\ chat_id m = c /\ timestamp m = ts.
Proof.
  unfold Sql.index_taken. rewrite existsb_exists.
  split; intros (m & Hm & H); exists m; split; auto.
  - apply andb_true_iff in H. destruct H as [Hc Ht].
    apply String.eqb_eq in Hc. apply Z.eqb_eq in Ht. auto.
  - destruct H as [Hc Ht]. apply andb_true_iff.
    split; [now apply String.eqb_eq|now apply Z.eqb_eq].
Qed.

Lemma index_free_not_in t c ts :
  Sql.index_taken t c ts = false -> ~ In (c, ts) (map Sql.index_key t).
Proof.
  intros H Hin. apply in_map_iff in Hin. destruct Hin as (m & E & Hm).
  unfold Sql.index_key in E. inversion E; subst.
  assert (Sql.index_taken t (chat_id m) (timestamp m) = true) as H'
    by (apply index_taken_iff; eauto).
  congruence.
Qed.

Lemma unique_index_insert t m :
  unique_index t ->
  Sql.index_taken t (chat_id m) (timestamp m) = false ->
  unique_index (t ++ [m]).
Proof.
  unfold unique_index. intros Hu Hfree.
  rewrite map_app. simpl.
  apply (Permutation_NoDup (l := Sql.index_key m :: map Sql.index_key t)).
  - change (Sql.index_key m :: map Sql.index_key t)
      with ([Sql.index_key m] ++ map Sql.index_key t).
    apply Permutation_app_comm.
  - constructor; [|exact Hu]. now apply index_free_not_in.
Qed.

Lemma unique_index_filter p t : unique_index t -> unique_index (filter p t).
Proof. apply NoDup_map_filter. Qed.

Lemma save_message_keeps_index f clk q a c d :
  unique_index (rows d) ->
  unique_index (rows (snd (save_message f clk q a c d))).
Proof.
  intro Hu. rewrite save_message_eq.
  destruct (storage_fails f d); simpl; [exact Hu|].
  destruct (Sql.index_taken (rows d) c (now clk)) eqn:E; simpl; [exact Hu|].
  now apply unique_index_insert.
Qed.

Lemma delete_chat_keeps_index f c d :
  unique_index (rows d) -> unique_index (rows (snd (delete_chat f c d))).
Proof.
  intro Hu. rewrite delete_chat_eq.
  destruct (storage_fails f d); simpl; [exact Hu|].
  now apply unique_index_filter.
Qed.

Lemma reachable_closed d : reachable d -> is_open d = false.
Proof.
  destruct 1; try reflexivity.
  - rewrite save_message_eq.
    now destruct (storage_fails _ _ || Sql.index_taken _ _ _).
  - now rewrite get_chat_history_eq.
  - rewrite delete_chat_eq. now destruct (storage_fails _ _).
  - now rewrite get_chat_folders_eq.
  - now rewrite search_messages_eq.
Qed.

Lemma reachable_unique_index d : reachable d -> unique_index (rows d).
Proof.
  induction 1.
  - constructor.
  - now apply save_message_keeps_index.
  - now rewrite get_chat_history_eq.
  - now apply delete_chat_keeps_index.
  - now rewrite get_chat_folders_eq.
  - now rewrite search_messages_eq.
Qed.

(** In a table under the unique index, a list of rows of one conversation
    that never goes up in time goes strictly down. *)
Lemma newest_first_strict c l :
  NoDup (map Sql.index_key l) ->
  Forall (fun m => chat_id m = c) l ->
  newest_first l -> strictly_descending l.
Proof.
  unfold newest_first, strictly_descending.
  intros Hu Hc Hs. induction Hs as [|x l Hs IH Hf]; [constructor|].
  simpl in Hu. inversion Hu as [|? ? Hn Hd]; subst.
  inversion Hc as [|? ? Hx Hl]; subst.
  constructor; [now apply IH|].
  rewrite Forall_forall in *. intros y Hy.
  specialize (Hf y Hy). specialize (Hl y Hy).
  destruct (Z.eq_dec (timestamp y) (timestamp x)) as [E|]; [|lia].
  exfalso. apply Hn. apply in_map_iff. exists y. split; [|exact Hy].
  unfold Sql.index_key. now rewrite Hl, E.
Qed.

(** What a [SELECT .. ORDER BY timestamp DESC LIMIT k] yields, whatever
    its [WHERE]. *)
Lemma selection_newest_first p k t :
  newest_first (Sql.apply_limit k (Sql.order_by_desc timestamp (filter p t))).
Proof.
  destruct (apply_limit_prefix k (Sql.order_by_desc timestamp (filter p t)))
    as [rest E].
  apply StronglySorted_app_l with (l2 := rest). rewrite <- E.
  apply order_by_desc_sorted.
Qed.

Lemma selection_unique_index p k t :
  unique_index t ->
  NoDup (map Sql.index_key
           (Sql.apply_limit k (Sql.order_by_desc timestamp (filter p t)))).
Proof.
  intro Hu.
  destruct (apply_limit_prefix k (Sql.order_by_desc timestamp (filter p t)))
    as [rest E].
  apply NoDup_app_l with (l2 := map Sql.index_key rest).
  rewrite <- map_app, <- E.
  eapply Permutation_NoDup.
  - apply Permutation_map, order_by_desc_perm.
  - now apply unique_index_filter.
Qed.

Lemma selection_In p k t m :
  In m (Sql.apply_limit k (Sql.order_by_desc timestamp (filter p t))) ->
  In m t /\ p m = true.
Proof.
  intro H. apply apply_limit_In in H. apply order_by_desc_In in H.
  now apply filter_In in H.
Qed.

(* ================================================================= *)
(** ** Saving *)

(** C8.  A call of [save_message] that returns [True] has appended exactly
    one row, carrying the arguments and the time of the call, after the
    rows that were there; a call that returns [False] has left the rows as
    they were; and no call does anything else. *)
Theorem save_message_adds_one_row_or_none f clk q a c d :
  let r := save_message f clk q a c d in
  (fst r = Returned true /\
   exists m, rows (snd r) = rows d ++ [m] /\
             question m = q /\ answer m = a /\ chat_id m = c /\
             timestamp m = now clk)
  \/
  (fst r = Returned false /\ rows (snd r) = rows d).
Proof.
  cbv zeta. rewrite save_message_eq.
  destruct (storage_fails f d || Sql.index_taken (rows d) c (now clk)); simpl.
  - right. split; reflexivity.
  - left. split; [reflexivity|].
    exists (new_row (rows d) clk q a c). repeat split; reflexivity.
Qed.

(** C9.  In every state reached through the five operations the pairs
    [(chat_id, timestamp)] of the stored rows are pairwise different; and a
    [save_message] whose row would repeat a stored pair returns [False],
    raises nothing, and leaves the rows, hence the index, as they were. *)
Theorem unique_index_invariant :
  (forall d, reachable d -> unique_index (rows d)) /\
  (forall d f clk q a c,
      reachable d ->
      (exists m, In m (rows d) /\ chat_id m = c /\ timestamp m = now clk) ->
      let r := save_message f clk q a c d in
      fst r = Returned false /\ rows (snd r) = rows d /\
      unique_index (rows (snd r))).
Proof.
  split; [exact reachable_unique_index|].
  intros d f clk q a c Hr Hcol. cbv zeta.
  apply index_taken_iff in Hcol.
  rewrite save_message_eq, Hcol, orb_true_r. simpl.
  repeat split. now apply reachable_unique_index.
Qed.

Lemma unique_index_invariant_witness :
  reachable Scenario.db2 /\
  unique_index (rows Scenario.db2) /\
  fst (save_message no_faults (Scenario.at_time 2) "Again" "Sure" "c1"
         Scenario.db2) = Returned false.
Proof.
  assert (reachable Scenario.db2) as Hr by (do 2 apply reach_save; constructor).
  destruct unique_index_invariant as [Hinv Hsave].
  split; [exact Hr|]. split; [exact (Hinv _ Hr)|].
  apply (Hsave Scenario.db2 no_faults (Scenario.at_time 2) "Again" "Sure" "c1" Hr).
  exists Scenario.row2. vm_compute. auto.
Defined.

Lemma new_row_selected t clk q a c : selected c (new_row t clk q a c) = true.
Proof.
  unfold selected. destruct (String.eqb c ""); [reflexivity|].
  apply String.eqb_refl.
Qed.

Lemma history_selects c m :
  match Some c with
  | Some x => if String.eqb x "" then true else in_chat x m
  | None => true
  end = selected c m.
Proof. reflexivity. Qed.

(** C1, as the code has it.  When [save_message(question, answer, chat_id)]
    returns [True], the storage medium serves the following read, and
    fewer than 50 (the default limit) of the messages stored before that
    [get_chat_history(chat_id)] selects have a timestamp at or after that
    of the save, [get_chat_history(chat_id)] returns a list holding a
    message with that question, that answer and that chat_id. *)
Theorem save_then_history_roundtrip f clk q a c d f' :
  (List.length (filter (fun m => (now clk <=? timestamp m)%Z)
                  (filter (selected c) (rows d)))
   < Z.to_nat default_history_limit)%nat ->
  fst (save_message f clk q a c d) = Returned true ->
  healthy f' = true ->
  exists l m,
    fst (get_chat_history f' (Some c) default_history_limit
           (snd (save_message f clk q a c d))) = Returned l /\
    In m l /\ question m = q /\ answer m = a /\ chat_id m = c.
Proof.
  intros Hfew Hsave Hf'.
  rewrite save_message_eq in *.
  destruct (storage_fails f d || Sql.index_taken (rows d) c (now clk));
    [discriminate|].
  rewrite get_chat_history_eq,
    (healthy_query_ok _ _ _ Hf' default_history_limit_int64).
  cbn [fst snd rows].
  pose proof (new_row_selected (rows d) clk q a c) as Hsel.
  set (new := new_row (rows d) clk q a c) in *.
  eexists. exists new.
  split; [reflexivity|]. split; [|repeat split; reflexivity].
  rewrite (filter_ext _ (selected c)) by (intro; apply history_selects).
  rewrite filter_app. cbn [filter]. rewrite Hsel.
  set (old := filter (selected c) (rows d)) in *.
  pose proof (order_by_desc_perm timestamp (old ++ [new])) as Hperm.
  pose proof (order_by_desc_sorted timestamp (old ++ [new])) as Hsorted.
  assert (In new (Sql.order_by_desc timestamp (old ++ [new]))) as Hin
    by (apply order_by_desc_In, in_or_app; right; now left).
  destruct (in_split _ _ Hin) as (l1 & l2 & E).
  rewrite E in *.
  assert (Permutation old (l1 ++ l2)) as Hold.
  { apply Permutation_cons_app_inv with (a := new).
    eapply perm_trans; [|exact Hperm].
    change (new :: old) with ([new] ++ old). apply Permutation_app_comm. }
  assert (List.length l1 < Z.to_nat default_history_limit)%nat as Hl1.
  { eapply Nat.le_lt_trans; [|exact Hfew].
    rewrite (Permutation_filter_length _ _ _ Hold), filter_app, length_app.
    replace (filter (fun m => now clk <=? timestamp m) l1) with l1; [lia|].
    symmetry. apply forallb_filter_id, forallb_forall. intros x Hx.
    apply Z.leb_le.
    apply (StronglySorted_app_cross _ _ _ x new Hsorted Hx). now left. }
  rewrite apply_limit_firstn by (unfold default_history_limit; lia).
  rewrite firstn_app. apply in_or_app. right.
  destruct (Z.to_nat default_history_limit - List.length l1)%nat eqn:En;
    [lia|]. now left.
Qed.

Lemma save_then_history_roundtrip_witness :
  exists l m,
    fst (get_chat_history no_faults (Some "c1") default_history_limit
           (snd (save_message no_faults (Scenario.at_time 2)
                   "Follow-up" "More info" "c1" Scenario.db1))) = Returned l /\
    In m l /\ question m = "Follow-up" /\ answer m = "More info" /\
    chat_id m = "c1".
Proof.
  apply (save_then_history_roundtrip no_faults (Scenario.at_time 2)
           "Follow-up" "More info" "c1" Scenario.db1 no_faults).
  - vm_compute. lia.
  - reflexivity.
  - reflexivity.
Defined.

Lemma busy_reachable n : reachable (Scenario.busy n).
Proof.
  induction n as [|n IH]; [constructor|]. cbn [Scenario.busy].
  now apply reach_save.
Qed.

(** C1 as stated fails: the conversation holds 50 messages saved at the
    times 2 to 51; a message saved with the clock at 1 is stored
    ([save_message] returns [True]), and the 50 messages the history
    returns are the others. *)
Lemma late_save_is_cut_off :
  reachable (Scenario.busy 50) /\
  fst (save_message no_faults (Scenario.at_time 1) "Late" "Answer" "c"
         (Scenario.busy 50)) = Returned true /\
  exists l,
    fst (get_chat_history no_faults (Some "c") default_history_limit
           (snd (save_message no_faults (Scenario.at_time 1) "Late" "Answer"
                   "c" (Scenario.busy 50)))) = Returned l /\
    ~ exists m, In m l /\ question m = "Late" /\ answer m = "Answer" /\
                chat_id m = "c".
Proof.
  split; [apply busy_reachable|]. split; [vm_compute; reflexivity|].
  eexists. split; [vm_compute; reflexivity|].
  intros (m & Hm & Hq & _).
  match type of Hm with
  | In _ ?l =>
      assert (forallb (fun x => String.eqb (question x) "Q") l = true) as Hall
        by (vm_compute; reflexivity)
  end.
  rewrite forallb_forall in Hall. specialize (Hall m Hm).
  apply String.eqb_eq in Hall. rewrite Hq in Hall. discriminate.
Qed.

(* ================================================================= *)
(** ** Failures stay inside the operations *)

(** C5.  Whatever the arguments, the stored rows and the failures of the
    storage medium, each of the five operations returns a value and raises
    nothing; and when the storage medium fails (for [save_message] also
    when the unique index refuses the row) the value is [False] for
    [save_message] and [delete_chat] and the empty list for the three
    queries. *)
Theorem operations_never_raise f d :
  ((forall clk q a c, exists b, fst (save_message f clk q a c d) = Returned b) /\
   (forall c k, exists l, fst (get_chat_history f c k d) = Returned l) /\
   (forall c, exists b, fst (delete_chat f c d) = Returned b) /\
   (exists l, fst (get_chat_folders f d) = Returned l) /\
   (forall q k, exists l, fst (search_messages f q k d) = Returned l))
  /\
  ((forall clk q a c,
       storage_fails f d = true \/ Sql.index_taken (rows d) c (now clk) = true ->
       fst (save_message f clk q a c d) = Returned false) /\
   (storage_fails f d = true ->
    (forall c k, fst (get_chat_history f c k d) = Returned []) /\
    (forall c, fst (delete_chat f c d) = Returned false) /\
    fst (get_chat_folders f d) = Returned [] /\
    (forall q k, fst (search_messages f q k d) = Returned []))).
Proof.
  split; [repeat split|split].
  - intros. rewrite save_message_eq.
    destruct (storage_fails f d || Sql.index_taken _ _ _); eexists; reflexivity.
  - intros. rewrite get_chat_history_eq. eexists; reflexivity.
  - intros. rewrite delete_chat_eq.
    destruct (storage_fails f d); eexists; reflexivity.
  - rewrite get_chat_folders_eq. eexists; reflexivity.
  - intros. rewrite search_messages_eq. eexists; reflexivity.
  - intros clk q a c H. rewrite save_message_eq.
    replace (storage_fails f d || Sql.index_taken (rows d) c (now clk))
      with true; [reflexivity|].
    symmetry. apply orb_true_iff. exact H.
  - intro H. repeat split; intros.
    + now rewrite get_chat_history_eq, (storage_fails_query_fails _ _ _ H).
    + now rewrite delete_chat_eq, H.
    + now rewrite get_chat_folders_eq, H.
    + now rewrite search_messages_eq, (storage_fails_search_fails _ _ _ _ H).
Qed.

Lemma operations_never_raise_witness :
  storage_fails Scenario.offline Scenario.db2 = true /\
  fst (save_message Scenario.offline (Scenario.at_time 3) "Q" "A" "c1"
         Scenario.db2) = Returned false /\
  fst (get_chat_history Scenario.offline (Some "c1") 50 Scenario.db2)
    = Returned [] /\
  fst (delete_chat Scenario.offline "c1" Scenario.db2) = Returned false /\
  fst (get_chat_folders Scenario.offline Scenario.db2) = Returned [] /\
  fst (search_messages Scenario.offline "AI" 10 Scenario.db2) = Returned [].
Proof.
  assert (storage_fails Scenario.offline Scenario.db2 = true) as H
    by reflexivity.
  destruct (operations_never_raise Scenario.offline Scenario.db2)
    as (_ & Hsave & Hrest).
  destruct (Hrest H) as (Hh & Hd & Hf & Hs).
  split; [exact H|]. split; [apply Hsave; now left|].
  split; [apply Hh|]. split; [apply Hd|]. split; [exact Hf|apply Hs].
Defined.

(** Without a handler the failure does leave the function: this is what
    [initialize_database] does when the file cannot be opened. *)
Example initialize_database_raises :
  fst (initialize_database Scenario.offline empty_db)
  = Raised (PeeweeException OperationalError).
Proof. reflexivity. Qed.

(* ================================================================= *)
(** ** Reading a conversation *)

Lemma filter_all {A} (l : list A) : filter (fun _ => true) l = l.
Proof. induction l as [|x l IH]; simpl; congruence. Qed.

Lemma Returned_inj {A} (a b : A) : Returned a = Returned b -> a = b.
Proof. congruence. Qed.

Lemma nonempty_eqb c : c <> "" -> String.eqb c "" = false.
Proof. intro H. now apply String.eqb_neq. Qed.

(** With a chat_id that is not empty, what comes back was stored under it. *)
Lemma history_rows_of_chat f c k d l m :
  c <> "" ->
  fst (get_chat_history f (Some c) k d) = Returned l ->
  In m l -> In m (rows d) /\ chat_id m = c.
Proof.
  intros Hc E Hm. rewrite get_chat_history_eq, (nonempty_eqb c Hc) in E.
  cbn [fst] in E. apply Returned_inj in E. subst l.
  destruct (query_fails f k d); [contradiction|].
  apply selection_In in Hm. destruct Hm as [Hin Hp].
  split; [exact Hin|]. now apply String.eqb_eq.
Qed.

(** Whatever the call, the messages of one conversation come back in
    strictly descending order among themselves. *)
Lemma history_each_conversation_descending f c k d l x :
  unique_index (rows d) ->
  fst (get_chat_history f c k d) = Returned l ->
  strictly_descending (filter (in_chat x) l).
Proof.
  intros Hu E. rewrite get_chat_history_eq in E. cbn [fst] in E.
  apply Returned_inj in E. subst l.
  destruct (query_fails f k d); [constructor|].
  apply (newest_first_strict x).
  - apply NoDup_map_filter. now apply selection_unique_index.
  - rewrite Forall_forall. intros m Hm. apply filter_In in Hm.
    now apply String.eqb_eq.
  - apply StronglySorted_filter, selection_newest_first.
Qed.

(** C10.  [get_chat_history] called with the empty text as chat_id does
    what it does without a chat_id: no conversation is selected, and, the
    storage medium serving the call and the limit fitting 64 bits, the
    messages of all conversations are returned, newest first, up to the
    limit (all of them when the limit does not cut). *)
Theorem empty_chat_id_reads_every_conversation f k d :
  get_chat_history f (Some "") k d = get_chat_history f None k d /\
  (healthy f = true ->
   - 2 ^ 63 <= k <= 2 ^ 63 - 1 ->
   fst (get_chat_history f (Some "") k d)
   = Returned (Sql.apply_limit (Some k) (Sql.order_by_desc timestamp (rows d)))
   /\
   (k < 0 \/ Z.of_nat (List.length (rows d)) <= k ->
    exists l, fst (get_chat_history f (Some "") k d) = Returned l /\
              forall m, In m (rows d) -> In m l)).
Proof.
  split; [now rewrite !get_chat_history_eq|].
  intros Hf Hk64. rewrite get_chat_history_eq, (healthy_query_ok _ _ _ Hf Hk64).
  cbn [fst String.eqb]. rewrite filter_all.
  split; [reflexivity|]. intro Hk. eexists. split; [reflexivity|].
  intros m Hm. rewrite apply_limit_all.
  - now apply order_by_desc_In.
  - now rewrite order_by_desc_length.
Qed.

Lemma empty_chat_id_reads_every_conversation_witness :
  fst (get_chat_history no_faults (Some "") 50 Scenario.db4)
  = Returned (Sql.apply_limit (Some 50)
                (Sql.order_by_desc timestamp (rows Scenario.db4))) /\
  exists l, fst (get_chat_history no_faults (Some "") 50 Scenario.db4)
            = Returned l /\ In Scenario.row2 l.
Proof.
  destruct (empty_chat_id_reads_every_conversation no_faults 50 Scenario.db4)
    as [_ H].
  destruct (H eq_refl) as [E Hall]; [lia|]. split; [exact E|].
  destruct Hall as (l & El & Hl).
  - right. vm_compute. discriminate.
  - exists l. split; [exact El|]. apply Hl. vm_compute. tauto.
Defined.

(** C2, as the code has it.  In a reachable state, [get_chat_history]
    called with a chat_id that is not empty returns messages of that
    conversation only, each with a timestamp strictly greater than the
    next one's. *)
Theorem history_strictly_descending f c k d l :
  reachable d ->
  c <> "" ->
  fst (get_chat_history f (Some c) k d) = Returned l ->
  strictly_descending l /\
  (forall m, In m l -> In m (rows d) /\ chat_id m = c).
Proof.
  intros Hr Hc E. split.
  - replace l with (filter (in_chat c) l).
    + eapply history_each_conversation_descending; [|exact E].
      now apply reachable_unique_index.
    + apply forallb_filter_id. apply forallb_forall. intros m Hm.
      apply String.eqb_eq. eapply history_rows_of_chat; eauto.
  - intros m Hm. eapply history_rows_of_chat; eauto.
Qed.

Lemma history_strictly_descending_witness :
  strictly_descending [Scenario.row2; Scenario.row1].
Proof.
  apply (history_strictly_descending no_faults "c1" 50 Scenario.db2).
  - do 2 apply reach_save. constructor.
  - discriminate.
  - reflexivity.
Defined.

(** C2 as stated fails for the conversation whose chat_id is the empty
    text: it holds two messages saved at different times, and the list
    returned for it has two neighbours with the same timestamp. *)
Lemma history_of_empty_chat_id_not_strict :
  reachable Scenario.db4 /\
  In Scenario.row3 (rows Scenario.db4) /\
  In Scenario.row4 (rows Scenario.db4) /\
  chat_id Scenario.row3 = "" /\ chat_id Scenario.row4 = "" /\
  timestamp Scenario.row3 <> timestamp Scenario.row4 /\
  exists l,
    fst (get_chat_history no_faults (Some "") default_history_limit
           Scenario.db4) = Returned l /\
    ~ strictly_descending l.
Proof.
  split; [do 4 apply reach_save; constructor|].
  split; [vm_compute; tauto|]. split; [vm_compute; tauto|].
  split; [reflexivity|]. split; [reflexivity|]. split; [discriminate|].
  eexists. split; [vm_compute; reflexivity|].
  intro H. inversion H as [|? ? _ Hf]; subst.
  inversion Hf as [|? ? Hlt _]; subst.
  vm_compute in Hlt. discriminate.
Qed.

(** C7, as the code has it.  For a chat_id A that is not empty and any
    other chat_id B, [get_chat_history(A)] returns no message whose
    chat_id is B. *)
Theorem history_scoped_to_chat f A B k d l :
  A <> "" ->
  A <> B ->
  fst (get_chat_history f (Some A) k d) = Returned l ->
  forall m, In m l -> chat_id m <> B.
Proof.
  intros HA HAB E m Hm HB.
  destruct (history_rows_of_chat f A k d l m HA E Hm) as [_ Hc]. congruence.
Qed.

Lemma history_scoped_to_chat_witness :
  fst (get_chat_history no_faults (Some "c1") 50 Scenario.db4)
  = Returned [Scenario.row2; Scenario.row1] /\
  chat_id Scenario.row2 <> "" /\ chat_id Scenario.row1 <> "".
Proof.
  assert (forall m, In m [Scenario.row2; Scenario.row1] -> chat_id m <> "")
    as H.
  { apply (history_scoped_to_chat no_faults "c1" "" 50 Scenario.db4).
    - discriminate.
    - discriminate.
    - reflexivity. }
  split; [reflexivity|].
  split; apply H; simpl; tauto.
Defined.

(** C7 as stated fails when A is the empty text: both conversations have
    messages, and the history asked for the first holds a message of the
    second. *)
Lemma history_of_empty_chat_id_not_scoped :
  "" <> "c1" /\
  (exists m, In m (rows Scenario.db4) /\ chat_id m = "") /\
  (exists m, In m (rows Scenario.db4) /\ chat_id m = "c1") /\
  exists l m,
    fst (get_chat_history no_faults (Some "") default_history_limit
           Scenario.db4) = Returned l /\
    In m l /\ chat_id m = "c1".
Proof.
  split; [discriminate|].
  split; [exists Scenario.row3; vm_compute; tauto|].
  split; [exists Scenario.row2; vm_compute; tauto|].
  eexists. exists Scenario.row2.
  split; [vm_compute; reflexivity|]. split; [simpl; tauto|reflexivity].
Qed.

(* ================================================================= *)
(** ** Deleting a conversation *)

Lemma filter_length_le {A} (p : A -> bool) l :
  (List.length (filter p l) <= List.length l)%nat.
Proof.
  induction l as [|x l IH]; simpl; [lia|]. destruct (p x); simpl; lia.
Qed.

Lemma filter_shorter_iff {A} (p : A -> bool) l :
  (List.length (filter p l) < List.length l)%nat <->
  exists x, In x l /\ p x = false.
Proof.
  induction l as [|x l IH]; simpl.
  - split; [lia|]. intros (x & [] & _).
  - pose proof (filter_length_le p l) as Hle.
    destruct (p x) eqn:E; simpl.
    + rewrite <- Nat.succ_lt_mono, IH.
      split; intros (y & Hy & Ey); exists y.
      * tauto.
      * destruct Hy as [<-|Hy]; [congruence|tauto].
    + split; [|lia]. intros _. exists x. tauto.
Qed.

Lemma filter_disjoint {A} (p : A -> bool) l :
  filter p (filter (fun x => negb (p x)) l) = [].
Proof.
  induction l as [|x l IH]; simpl; [reflexivity|].
  destruct (p x) eqn:E; simpl; [exact IH|]. now rewrite E.
Qed.

Lemma filter_twice {A} (p : A -> bool) l : filter p (filter p l) = filter p l.
Proof.
  induction l as [|x l IH]; simpl; [reflexivity|].
  destruct (p x) eqn:E; simpl; [rewrite E; congruence|exact IH].
Qed.

(** C3, as the code has it.  [delete_chat(X)] returns a Boolean, [True]
    exactly when some stored row is gone afterwards.  When the storage
    medium serves the call, the rows left are the stored rows whose
    chat_id is not X, in their order; a second [delete_chat(X)] returns
    [False] and changes nothing; and for X other than the empty text
    [get_chat_history(X)] then returns the empty list. *)
Theorem delete_chat_removes_conversation f X d :
  let r := delete_chat f X d in
  (exists b, fst r = Returned b /\
             (b = true <->
              exists m, In m (rows d) /\ ~ In m (rows (snd r))))
  /\
  (healthy f = true ->
   rows (snd r) = filter (fun m => negb (in_chat X m)) (rows d) /\
   (forall m, In m (rows (snd r)) -> chat_id m <> X) /\
   (forall f2, fst (delete_chat f2 X (snd r)) = Returned false /\
               rows (snd (delete_chat f2 X (snd r))) = rows (snd r)) /\
   (X <> "" ->
    forall f3 k, fst (get_chat_history f3 (Some X) k (snd r)) = Returned [])).
Proof.
  cbv zeta. split.
  - rewrite delete_chat_eq. destruct (storage_fails f d); cbn [fst snd rows].
    + exists false. split; [reflexivity|].
      split; [discriminate|]. intros (m & Hm & Hn). contradiction.
    + eexists. split; [reflexivity|].
      rewrite Z.ltb_lt.
      transitivity (List.length (filter (fun m => negb (in_chat X m)) (rows d))
                    < List.length (rows d))%nat; [lia|].
      rewrite filter_shorter_iff.
      split; intros (m & Hm & H); exists m; split; auto.
      * intro Hin. apply filter_In in Hin. destruct Hin as [_ Hin]. congruence.
      * destruct (negb (in_chat X m)) eqn:E; [|reflexivity].
        exfalso. apply H. apply filter_In. tauto.
  - intro Hf. rewrite delete_chat_eq, (healthy_not_fails _ _ Hf).
    cbn [fst snd rows].
    split; [reflexivity|]. split; [|split].
    + intros m Hm Hc. apply filter_In in Hm. destruct Hm as [_ Hm].
      unfold in_chat in Hm. rewrite Hc, String.eqb_refl in Hm. discriminate.
    + intro f2. rewrite delete_chat_eq. cbn [rows].
      rewrite filter_twice.
      destruct (storage_fails f2 _); cbn [fst snd rows];
        [split; reflexivity|].
      split; [|reflexivity]. f_equal. apply Z.ltb_ge. lia.
    + intros HX f3 k. rewrite get_chat_history_eq, (nonempty_eqb X HX).
      cbn [fst rows].
      rewrite (filter_disjoint (in_chat X)). cbn [Sql.order_by_desc fold_right].
      rewrite apply_limit_nil. now destruct (query_fails f3 k _).
Qed.

Lemma delete_chat_removes_conversation_witness :
  fst (delete_chat no_faults "c1" Scenario.db4) = Returned true /\
  rows (snd (delete_chat no_faults "c1" Scenario.db4))
  = [Scenario.row3; Scenario.row4] /\
  fst (delete_chat no_faults "c1" (snd (delete_chat no_faults "c1" Scenario.db4)))
  = Returned false /\
  fst (get_chat_history no_faults (Some "c1") 50
         (snd (delete_chat no_faults "c1" Scenario.db4))) = Returned [].
Proof.
  destruct (delete_chat_removes_conversation no_faults "c1" Scenario.db4)
    as [_ H].
  destruct (H eq_refl) as (Hrows & _ & Hagain & Hhist).
  split; [reflexivity|]. split; [exact Hrows|].
  split; [apply Hagain|]. apply Hhist. discriminate.
Defined.

(** C3 as stated fails when X is the empty text: after [delete_chat("")]
    has removed that conversation, [get_chat_history("")] returns the
    messages of the conversations that are left. *)
Lemma history_after_deleting_empty_chat_id :
  fst (delete_chat no_faults "" Scenario.db4) = Returned true /\
  fst (get_chat_history no_faults (Some "") default_history_limit
         (snd (delete_chat no_faults "" Scenario.db4)))
  = Returned [Scenario.row2; Scenario.row1] /\
  [Scenario.row2; Scenario.row1] <> [].
Proof. split; [reflexivity|]. split; [reflexivity|discriminate]. Qed.

(* ================================================================= *)
(** ** Conversation summaries *)

Lemma max_by_timestamp_spec m l :
  In (Sql.max_by_timestamp m l) (m :: l) /\
  forall x, In x (m :: l) -> timestamp x <= timestamp (Sql.max_by_timestamp m l).
Proof.
  revert m. induction l as [|y l IH]; intro m; simpl.
  - split; [now left|]. intros x [<-|[]]. lia.
  - destruct (timestamp m <? timestamp y) eqn:E.
    + apply Z.ltb_lt in E. destruct (IH y) as [Hin Hmax]. split.
      * right. exact Hin.
      * intros x [<-|Hx]; [|now apply Hmax].
        specialize (Hmax y (or_introl eq_refl)). lia.
    + apply Z.ltb_ge in E. destruct (IH m) as [Hin Hmax]. split.
      * simpl in Hin. tauto.
      * intros x [<-|[<-|Hx]].
        -- apply Hmax. now left.
        -- specialize (Hmax m (or_introl eq_refl)). lia.
        -- apply Hmax. now right.
Qed.

Lemma summary_of_stored_chat t c :
  In c (map chat_id t) ->
  exists top,
    summary t c = [mkFolder c (question top) (timestamp top)] /\
    In top t /\ chat_id top = c /\
    forall m, In m t -> chat_id m = c -> timestamp m <= timestamp top.
Proof.
  intro Hc. apply in_map_iff in Hc. destruct Hc as (m0 & E0 & H0).
  assert (In m0 (filter (in_chat c) t)) as Hin.
  { apply filter_In. split; [exact H0|]. now apply String.eqb_eq. }
  unfold summary.
  assert (forall x, In x (filter (in_chat c) t) <-> In x t /\ chat_id x = c)
    as Hg.
  { intro x. rewrite filter_In. unfold in_chat. now rewrite String.eqb_eq. }
  destruct (filter (in_chat c) t) as [|m g]; [contradiction|].
  destruct (max_by_timestamp_spec m g) as [Htop Hmax].
  exists (Sql.max_by_timestamp m g). split; [reflexivity|].
  apply Hg in Htop. destruct Htop as [Ht Hc]. repeat split; auto.
  intros x Hx Hxc. apply Hmax. apply Hg. tauto.
Qed.

Lemma insert_text_perm c l : Permutation (c :: l) (Sql.insert_text c l).
Proof.
  induction l as [|y l IH]; simpl.
  - apply Permutation_refl.
  - destruct (String.leb c y).
    + apply Permutation_refl.
    + eapply perm_trans; [apply perm_swap|]. now apply perm_skip.
Qed.

Lemma order_by_text_perm l : Permutation l (Sql.order_by_text l).
Proof.
  induction l as [|c l IH]; simpl.
  - constructor.
  - eapply perm_trans; [apply perm_skip, IH|]. apply insert_text_perm.
Qed.

Lemma stored_chat_ids_In t c :
  In c (Sql.order_by_text (nodup string_dec (map chat_id t))) <->
  In c (map chat_id t).
Proof.
  split; intro H.
  - apply (nodup_In string_dec).
    eapply Permutation_in; [apply Permutation_sym, order_by_text_perm|exact H].
  - eapply Permutation_in; [apply order_by_text_perm|].
    now apply nodup_In.
Qed.

Lemma group_by_chat_id_ids t :
  map folder_chat_id (group_by_chat_id t)
  = Sql.order_by_text (nodup string_dec (map chat_id t)).
Proof.
  unfold group_by_chat_id.
  assert (forall c, In c (Sql.order_by_text (nodup string_dec (map chat_id t)))
                    -> In c (map chat_id t)) as Hsub
    by (intros c; apply stored_chat_ids_In).
  induction (Sql.order_by_text (nodup string_dec (map chat_id t)))
    as [|c cs IH]; simpl.
  - reflexivity.
  - destruct (summary_of_stored_chat t c) as (top & E & _).
    { apply Hsub. now left. }
    rewrite E. simpl. f_equal. apply IH. intros x Hx. apply Hsub. now right.
Qed.

Lemma group_ids_perm t :
  Permutation (nodup string_dec (map chat_id t))
              (map folder_chat_id (group_by_chat_id t)).
Proof. rewrite group_by_chat_id_ids. apply order_by_text_perm. Qed.

Lemma folders_order_perm t :
  Permutation (group_by_chat_id t)
              (Sql.order_by_desc last_message (rev (group_by_chat_id t))).
Proof.
  eapply perm_trans; [apply Permutation_rev|]. apply order_by_desc_perm.
Qed.

Lemma folders_order_In t x :
  In x (Sql.order_by_desc last_message (rev (group_by_chat_id t))) <->
  In x (group_by_chat_id t).
Proof. now rewrite order_by_desc_In, <- in_rev. Qed.

Lemma group_by_chat_id_In t x :
  In x (group_by_chat_id t) ->
  exists top,
    x = mkFolder (chat_id top) (question top) (timestamp top) /\
    In top t /\
    forall m, In m t -> chat_id m = chat_id top -> timestamp m <= timestamp top.
Proof.
  unfold group_by_chat_id. intro H. apply in_flat_map in H.
  destruct H as (c & Hc & Hx). apply stored_chat_ids_In in Hc.
  destruct (summary_of_stored_chat t c Hc) as (top & E & Ht & Hc' & Hmax).
  rewrite E in Hx. destruct Hx as [<-|[]].
  exists top. subst c. auto.
Qed.

(** C4.  When the storage medium serves the call, [get_chat_folders]
    returns one entry for each chat_id that has stored messages and no
    entry for any other; no chat_id has two entries; the [last_message] of
    an entry is the timestamp of a stored message of that conversation and
    no message of the conversation has a greater one; and the entries come
    with [last_message] descending. *)
Theorem folders_summarise_conversations f d :
  healthy f = true ->
  exists fs,
    fst (get_chat_folders f d) = Returned fs /\
    NoDup (map folder_chat_id fs) /\
    (forall c, In c (map folder_chat_id fs) <->
               exists m, In m (rows d) /\ chat_id m = c) /\
    (forall x, In x fs ->
       (exists m, In m (rows d) /\ chat_id m = folder_chat_id x /\
                  timestamp m = last_message x) /\
       (forall m, In m (rows d) -> chat_id m = folder_chat_id x ->
                  timestamp m <= last_message x)) /\
    StronglySorted (fun x y => last_message y <= last_message x) fs.
Proof.
  intro Hf. rewrite get_chat_folders_eq, (healthy_not_fails _ _ Hf).
  cbn [fst]. eexists. split; [reflexivity|].
  assert (Permutation (nodup string_dec (map chat_id (rows d)))
            (map folder_chat_id
               (Sql.order_by_desc last_message
                  (rev (group_by_chat_id (rows d))))))
    as Hids.
  { eapply perm_trans; [apply group_ids_perm|].
    apply Permutation_map, folders_order_perm. }
  split; [|split; [|split]].
  - eapply Permutation_NoDup; [exact Hids|]. apply NoDup_nodup.
  - intro c. split.
    + intro H. apply (Permutation_in c (Permutation_sym Hids)) in H.
      apply nodup_In, in_map_iff in H. destruct H as (m & E & Hm). eauto.
    + intros (m & Hm & E). apply (Permutation_in c Hids).
      apply nodup_In, in_map_iff. eauto.
  - intros x Hx. apply folders_order_In in Hx.
    apply group_by_chat_id_In in Hx. destruct Hx as (top & -> & Ht & Hmax).
    cbn [folder_chat_id last_message]. split; [eauto|exact Hmax].
  - apply order_by_desc_sorted.
Qed.

Lemma folders_summarise_conversations_witness :
  exists fs,
    fst (get_chat_folders no_faults Scenario.db2) = Returned fs /\
    NoDup (map folder_chat_id fs) /\
    (In "c1" (map folder_chat_id fs) <->
     exists m, In m (rows Scenario.db2) /\ chat_id m = "c1").
Proof.
  destruct (folders_summarise_conversations no_faults Scenario.db2 eq_refl)
    as (fs & E & Hnd & Hin & _).
  exists fs. split; [exact E|]. split; [exact Hnd|]. apply Hin.
Defined.

(** The scenario of the specification: after the two saves into ["c1"]
    there is one folder, dated by the second message. *)
Example folders_of_scenario :
  fst (get_chat_folders no_faults Scenario.db2)
  = Returned [mkFolder "c1" "Follow-up" 2].
Proof. reflexivity. Qed.

(* ================================================================= *)
(** ** Searching *)

Lemma like_prefix_iff q s :
  Sql.like_prefix q s = true <->
  exists mid post, s = (mid ++ post)%string /\ fold_case mid = fold_case q.
Proof.
  revert s. induction q as [|a q IH]; intro s.
  - simpl. split; [|reflexivity]. intros _. exists "", s. split; reflexivity.
  - destruct s as [|b s]; simpl.
    + split; [discriminate|]. intros (mid & post & E & Hf).
      destruct mid; simpl in *; discriminate.
    + rewrite andb_true_iff, Ascii.eqb_eq, IH. split.
      * intros (Hab & mid & post & -> & Hf).
        exists (String b mid), post. simpl. split; [reflexivity|].
        now rewrite Hf, Hab.
      * intros (mid & post & E & Hf).
        destruct mid as [|b' mid]; simpl in *; [discriminate|].
        injection E as -> ->. injection Hf as Hb Hf.
        split; [now symmetry|]. eauto.
Qed.

Lemma like_contains_iff s q :
  Sql.like_contains s q = true <-> substring_nocase q s.
Proof.
  unfold substring_nocase. induction s as [|b s IH].
  - cbn [Sql.like_contains]. rewrite orb_false_r, like_prefix_iff. split.
    + intros (mid & post & E & Hf). exists "", mid, post. auto.
    + intros (pre & mid & post & E & Hf).
      destruct pre; simpl in E; [|discriminate]. eauto.
  - cbn [Sql.like_contains]. rewrite orb_true_iff, like_prefix_iff, IH. split.
    + intros [(mid & post & E & Hf)|(pre & mid & post & E & Hf)].
      * exists "", mid, post. auto.
      * exists (String b pre), mid, post. simpl. split; [now rewrite E|exact Hf].
    + intros (pre & mid & post & E & Hf).
      destruct pre as [|b' pre]; simpl in E.
      * left. eauto.
      * right. injection E as _ E. eauto.
Qed.

Lemma contains_iff s q :
  Sql.has_nul q = false ->
  (Sql.contains s q = true <-> substring_nocase q (Sql.c_string s)).
Proof. intro H. unfold Sql.contains. rewrite H. apply like_contains_iff. Qed.

Lemma prefixb_iff q s :
  prefixb q s = true <-> exists post, s = (q ++ post)%string.
Proof.
  revert s. induction q as [|a q IH]; intro s.
  - simpl. split; [|reflexivity]. intros _. now exists s.
  - destruct s as [|b s]; simpl.
    + split; [discriminate|]. intros (post & E). discriminate.
    + rewrite andb_true_iff, Ascii.eqb_eq, IH. split.
      * intros (-> & post & ->). now exists post.
      * intros (post & E). injection E as -> ->. eauto.
Qed.

Lemma substringb_iff q s : substringb q s = true <-> substring q s.
Proof.
  unfold substring. induction s as [|b s IH].
  - cbn [substringb]. rewrite orb_false_r, prefixb_iff. split.
    + intros (post & E). now exists "", post.
    + intros (pre & post & E). destruct pre; simpl in E; [|discriminate]. eauto.
  - cbn [substringb]. rewrite orb_true_iff, prefixb_iff, IH. split.
    + intros [(post & E)|(pre & post & E)].
      * now exists "", post.
      * exists (String b pre), post. simpl. now rewrite E.
    + intros (pre & post & E). destruct pre as [|b' pre]; simpl in E.
      * left. eauto.
      * right. injection E as _ E. eauto.
Qed.

Lemma matches_iff q m :
  Sql.has_nul q = false ->
  (matches q m = true <->
   substring_nocase q (Sql.c_string (question m)) \/
   substring_nocase q (Sql.c_string (answer m))).
Proof.
  intro H. unfold matches. now rewrite orb_true_iff, !(contains_iff _ _ H).
Qed.

Lemma healthy_search_ok f q k d :
  healthy f = true ->
  - 2 ^ 63 <= k <= 2 ^ 63 - 1 ->
  Sql.pattern_too_complex q = false ->
  search_fails f q k d = false.
Proof.
  intros Hf Hk Hq. unfold search_fails.
  now rewrite (healthy_query_ok _ _ _ Hf Hk), Hq.
Qed.

(** C6, as the code has it.  Take a query without NUL character whose
    pattern has at most 50000 bytes, and a limit [k] from 0 that fits 64
    bits.  When the storage medium serves the call, the messages whose
    question or answer, read up to its first NUL character, holds the
    query, letters of the ASCII range compared without regard to case, can
    be laid out newest first so that [search_messages] returns the first
    [k] of them (all of them when they are fewer). *)
Theorem search_messages_ignores_case f q k d :
  healthy f = true ->
  0 <= k <= 2 ^ 63 - 1 ->
  Sql.has_nul q = false ->
  Sql.pattern_too_complex q = false ->
  exists l rest,
    fst (search_messages f q k d) = Returned l /\
    (forall m, In m (l ++ rest) <->
               In m (rows d) /\
               (substring_nocase q (Sql.c_string (question m)) \/
                substring_nocase q (Sql.c_string (answer m)))) /\
    Permutation (l ++ rest) (filter (matches q) (rows d)) /\
    newest_first (l ++ rest) /\
    List.length l = Nat.min (Z.to_nat k) (List.length (l ++ rest)).
Proof.
  intros Hf Hk Hnul Hpat.
  rewrite search_messages_eq, (healthy_search_ok f q k d Hf) by (auto; lia).
  cbn [fst]. rewrite apply_limit_firstn by lia.
  set (all := Sql.order_by_desc timestamp (filter (matches q) (rows d))).
  exists (firstn (Z.to_nat k) all), (skipn (Z.to_nat k) all).
  rewrite firstn_skipn. split; [reflexivity|]. split; [|split; [|split]].
  - intro m. unfold all.
    rewrite order_by_desc_In, filter_In, (matches_iff q m Hnul). tauto.
  - apply Permutation_sym, order_by_desc_perm.
  - apply order_by_desc_sorted.
  - apply length_firstn.
Qed.

Lemma search_messages_ignores_case_witness :
  exists l rest,
    fst (search_messages no_faults "ai" default_search_limit Scenario.db2)
    = Returned l /\
    Permutation (l ++ rest) (filter (matches "ai") (rows Scenario.db2)) /\
    newest_first (l ++ rest).
Proof.
  destruct (search_messages_ignores_case no_faults "ai" default_search_limit
              Scenario.db2 eq_refl)
    as (l & rest & E & _ & Hperm & Hsorted & _).
  - unfold default_search_limit. lia.
  - reflexivity.
  - vm_compute. reflexivity.
  - exists l, rest. auto.
Defined.

(** C6 as stated fails: the query ["ai"] occurs neither in the question
    nor in the answer of the stored message, letter for letter, and the
    search returns the message. *)
Lemma search_returns_message_differing_in_case :
  fst (search_messages no_faults "ai" default_search_limit Scenario.db1)
  = Returned [Scenario.row1] /\
  ~ substring "ai" (question Scenario.row1) /\
  ~ substring "ai" (answer Scenario.row1).
Proof.
  split; [reflexivity|].
  split; intro H; apply substringb_iff in H; vm_compute in H; discriminate.
Qed.

(* ================================================================= *)
(** ** The scenario of the specification *)

(** Two saves into ["c1"]: the history shows the second message first,
    deleting the conversation returns [True], and the history is empty
    afterwards. *)
Example scenario_history :
  fst (get_chat_history no_faults (Some "c1") default_history_limit
         Scenario.db2)
  = Returned [Scenario.row2; Scenario.row1].
Proof. reflexivity. Qed.

Example scenario_delete :
  fst (delete_chat no_faults "c1" Scenario.db2) = Returned true /\
  fst (get_chat_history no_faults (Some "c1") default_history_limit
         (snd (delete_chat no_faults "c1" Scenario.db2)))
  = Returned [].
Proof. split; reflexivity. Qed.

(* ================================================================= *)
(** ** Further properties of the store *)

Lemma closed_fails_alike f d d' :
  is_open d = false -> is_open d' = false ->
  storage_fails f d' = storage_fails f d.
Proof. unfold storage_fails. now intros -> ->. Qed.

Lemma closed_query_fails_alike f k d d' :
  is_open d = false -> is_open d' = false ->
  query_fails f k d' = query_fails f k d.
Proof.
  intros H H'. unfold query_fails. now rewrite (closed_fails_alike f d d').
Qed.

Lemma StronglySorted_snoc {A} (R : A -> A -> Prop) l x :
  StronglySorted R l -> Forall (fun y => R y x) l ->
  StronglySorted R (l ++ [x]).
Proof.
  induction 1 as [|y l Hs IH Hf]; simpl; intro Hx.
  - repeat constructor.
  - inversion Hx as [|? ? Hyx Hlx]; subst. constructor; [now apply IH|].
    apply Forall_app. split; [exact Hf|]. now repeat constructor.
Qed.

(** X1.  With a limit that is not negative, [get_chat_history] returns at
    most that many messages, whatever the chat_id and the state of the
    storage medium. *)
Theorem history_respects_limit f c k d l :
  0 <= k ->
  fst (get_chat_history f c k d) = Returned l ->
  Z.of_nat (List.length l) <= k.
Proof.
  intros Hk E. rewrite get_chat_history_eq in E. cbn [fst] in E.
  apply Returned_inj in E. subst l.
  destruct (query_fails f k d); [simpl; lia|].
  rewrite apply_limit_firstn by exact Hk.
  rewrite length_firstn. lia.
Qed.

Lemma history_respects_limit_witness :
  fst (get_chat_history no_faults (Some "c1") 1 Scenario.db2)
  = Returned [Scenario.row2] /\
  Z.of_nat (List.length [Scenario.row2]) <= 1.
Proof.
  split; [reflexivity|].
  apply (history_respects_limit no_faults (Some "c1") 1 Scenario.db2).
  - lia.
  - reflexivity.
Defined.

(** X2.  A message the limit of [get_chat_history] cuts off is never newer
    than a message that is returned: for a limit that fits 64 bits, when a
    stored message the call selects is missing from the result, the limit
    is not negative, the result is full, and every returned message is at
    least as new. *)
Theorem limit_drops_oldest f c k d l m :
  healthy f = true ->
  - 2 ^ 63 <= k <= 2 ^ 63 - 1 ->
  fst (get_chat_history f c k d) = Returned l ->
  In m (rows d) ->
  truthy c = false \/ c = Some (chat_id m) ->
  ~ In m l ->
  0 <= k /\ List.length l = Z.to_nat k /\
  forall x, In x l -> timestamp m <= timestamp x.
Proof.
  intros Hf Hk64 E Hm Hsel Hout.
  rewrite get_chat_history_eq, (healthy_query_ok _ _ _ Hf Hk64) in E.
  cbn [fst] in E. apply Returned_inj in E.
  set (p := fun m0 : Messages =>
              match c with
              | Some x => if String.eqb x "" then true else in_chat x m0
              | None => true
              end) in E.
  assert (p m = true) as Hp.
  { unfold p. destruct Hsel as [Hc| ->].
    - destruct c as [x|]; [|reflexivity]. simpl in Hc.
      now destruct (String.eqb x "").
    - destruct (String.eqb (chat_id m) ""); [reflexivity|].
      apply String.eqb_refl. }
  assert (In m (Sql.order_by_desc timestamp (filter p (rows d)))) as Hall
    by (apply order_by_desc_In, filter_In; tauto).
  pose proof (order_by_desc_sorted timestamp (filter p (rows d))) as Hs.
  set (all := Sql.order_by_desc timestamp (filter p (rows d))) in *.
  destruct (Z.ltb_spec k 0) as [Hneg|Hk].
  - exfalso. apply Hout. subst l. rewrite apply_limit_all; [exact Hall|lia].
  - rewrite apply_limit_firstn in E by exact Hk. subst l.
    rewrite <- (firstn_skipn (Z.to_nat k) all) in Hall, Hs.
    apply in_app_or in Hall. destruct Hall as [Hin|Hrest]; [contradiction|].
    split; [exact Hk|]. split.
    + rewrite length_firstn. apply Nat.min_l.
      destruct (Nat.le_gt_cases (Z.to_nat k) (List.length all)) as [|Hlt];
        [assumption|].
      rewrite skipn_all2 in Hrest by lia. contradiction.
    + intros x Hx.
      apply (StronglySorted_app_cross _ _ _ x m Hs Hx Hrest).
Qed.

Lemma limit_drops_oldest_witness :
  fst (get_chat_history no_faults (Some "c1") 1 Scenario.db2)
  = Returned [Scenario.row2] /\
  forall x, In x [Scenario.row2] ->
            timestamp Scenario.row1 <= timestamp x.
Proof.
  split; [reflexivity|].
  apply (limit_drops_oldest no_faults (Some "c1") 1 Scenario.db2
           [Scenario.row2] Scenario.row1).
  - reflexivity.
  - lia.
  - reflexivity.
  - vm_compute. tauto.
  - now right.
  - intros [H|[]]. discriminate H.
Defined.

(** X3.  Whatever its arguments, [get_chat_history] returns stored
    messages with timestamps that never go up; and in a reachable state
    the messages of any one conversation in the result go strictly down. *)
Theorem history_newest_first f c k d l :
  fst (get_chat_history f c k d) = Returned l ->
  newest_first l /\
  (forall m, In m l -> In m (rows d)) /\
  (reachable d -> forall x, strictly_descending (filter (in_chat x) l)).
Proof.
  intro E. split; [|split].
  - rewrite get_chat_history_eq in E. cbn [fst] in E.
    apply Returned_inj in E. subst l.
    destruct (query_fails f k d); [constructor|].
    apply selection_newest_first.
  - rewrite get_chat_history_eq in E. cbn [fst] in E.
    apply Returned_inj in E. subst l.
    destruct (query_fails f k d); [contradiction|].
    intros m Hm. now apply selection_In in Hm.
  - intros Hr x. eapply history_each_conversation_descending; [|exact E].
    now apply reachable_unique_index.
Qed.

Lemma history_newest_first_witness :
  newest_first [Scenario.row4; Scenario.row2; Scenario.row3; Scenario.row1] /\
  strictly_descending
    (filter (in_chat "c1")
       [Scenario.row4; Scenario.row2; Scenario.row3; Scenario.row1]).
Proof.
  destruct (history_newest_first no_faults None 50 Scenario.db4
              [Scenario.row4; Scenario.row2; Scenario.row3; Scenario.row1]
              eq_refl) as (Hs & _ & Hc).
  split; [exact Hs|]. apply Hc. do 4 apply reach_save. constructor.
Defined.

(** X4.  Every operation leaves the connection closed, also when it
    failed and also when it found the connection open; and the three
    queries leave the stored rows as they were. *)
Theorem connection_closed_queries_read_only f d :
  (forall clk q a c, is_open (snd (save_message f clk q a c d)) = false) /\
  (forall c, is_open (snd (delete_chat f c d)) = false) /\
  is_open (snd (initialize_database f d)) = false /\
  (forall c k, snd (get_chat_history f c k d) = mkDatabase false (rows d)) /\
  snd (get_chat_folders f d) = mkDatabase false (rows d) /\
  (forall q k, snd (search_messages f q k d) = mkDatabase false (rows d)).
Proof.
  repeat split; intros.
  - rewrite save_message_eq.
    now destruct (storage_fails f d || Sql.index_taken _ _ _).
  - rewrite delete_chat_eq. now destruct (storage_fails f d).
  - by_cases_on_faults f d.
  - now rewrite get_chat_history_eq.
  - now rewrite get_chat_folders_eq.
  - now rewrite search_messages_eq.
Qed.

(** X5.  [initialize_database] has no handler: when the storage medium
    fails the error leaves the function, otherwise it returns; either way
    the stored rows are untouched. *)
Theorem initialize_database_propagates f d :
  rows (snd (initialize_database f d)) = rows d /\
  (storage_fails f d = false -> fst (initialize_database f d) = Returned tt) /\
  (storage_fails f d = true ->
   exists e, fst (initialize_database f d) = Raised (PeeweeException e) /\
             (connect_error f = Some e \/ execute_error f = Some e)).
Proof.
  destruct d as [[|] t]; destruct f as [[ce|] [ee|]];
    cbv [storage_fails connect_error execute_error is_open rows negb andb orb];
    (split; [reflexivity|]); split; intro H; try discriminate H;
    try reflexivity; eexists; (split; [reflexivity|]); auto.
Qed.

Lemma initialize_database_propagates_witness :
  fst (initialize_database no_faults Scenario.db2) = Returned tt /\
  exists e, fst (initialize_database Scenario.offline Scenario.db2)
            = Raised (PeeweeException e).
Proof.
  split.
  - apply (initialize_database_propagates no_faults Scenario.db2). reflexivity.
  - destruct (initialize_database_propagates Scenario.offline Scenario.db2)
      as (_ & _ & H).
    destruct (H eq_refl) as (e & E & _). now exists e.
Defined.

Lemma filter_other_chat A B t :
  A <> B ->
  filter (in_chat B) (filter (fun m => negb (in_chat A m)) t)
  = filter (in_chat B) t.
Proof.
  intro HAB. induction t as [|m t IH]; simpl; [reflexivity|].
  destruct (in_chat A m) eqn:EA; simpl.
  - destruct (in_chat B m) eqn:EB; [|exact IH].
    apply String.eqb_eq in EA, EB. congruence.
  - now rewrite IH.
Qed.

(** X6.  Deleting one conversation leaves the history of every other one
    as it was: for A different from B, B not empty, [get_chat_history(B)]
    gives the same before and after [delete_chat(A)]. *)
Theorem delete_leaves_other_conversations f f' A B k d :
  is_open d = false ->
  A <> B ->
  B <> "" ->
  fst (get_chat_history f' (Some B) k (snd (delete_chat f A d)))
  = fst (get_chat_history f' (Some B) k d).
Proof.
  intros Hd HAB HB. rewrite !get_chat_history_eq, (nonempty_eqb B HB).
  cbn [fst]. rewrite delete_chat_eq.
  destruct (storage_fails f d); cbn [snd rows].
  - now rewrite (closed_query_fails_alike f' k d).
  - rewrite (closed_query_fails_alike f' k d) by auto.
    now rewrite (filter_other_chat A B).
Qed.

Lemma delete_leaves_other_conversations_witness :
  fst (get_chat_history no_faults (Some "c1") 50
         (snd (delete_chat no_faults "" Scenario.db4)))
  = fst (get_chat_history no_faults (Some "c1") 50 Scenario.db4).
Proof.
  apply (delete_leaves_other_conversations no_faults no_faults "" "c1" 50
           Scenario.db4).
  - reflexivity.
  - discriminate.
  - discriminate.
Defined.

(** X7.  Saving into one conversation leaves the history of every other
    one as it was: for A different from B, B not empty,
    [get_chat_history(B)] gives the same before and after a
    [save_message] with chat_id A, whether the save succeeded or not. *)
Theorem save_leaves_other_conversations f f' clk q a A B k d :
  is_open d = false ->
  A <> B ->
  B <> "" ->
  fst (get_chat_history f' (Some B) k (snd (save_message f clk q a A d)))
  = fst (get_chat_history f' (Some B) k d).
Proof.
  intros Hd HAB HB. rewrite !get_chat_history_eq, (nonempty_eqb B HB).
  cbn [fst]. rewrite save_message_eq.
  destruct (storage_fails f d || Sql.index_taken (rows d) A (now clk));
    cbn [snd rows]; rewrite (closed_query_fails_alike f' k d) by auto;
    [reflexivity|].
  rewrite filter_app. cbn [filter].
  replace (in_chat B (new_row (rows d) clk q a A)) with false.
  - now rewrite app_nil_r.
  - symmetry. apply String.eqb_neq. exact HAB.
Qed.

Lemma save_leaves_other_conversations_witness :
  fst (get_chat_history no_faults (Some "c1") 50
         (snd (save_message no_faults (Scenario.at_time 1) "Hello" "Hi" ""
                 Scenario.db2)))
  = fst (get_chat_history no_faults (Some "c1") 50 Scenario.db2).
Proof.
  apply (save_leaves_other_conversations no_faults no_faults
           (Scenario.at_time 1) "Hello" "Hi" "" "c1" 50 Scenario.db2).
  - reflexivity.
  - discriminate.
  - discriminate.
Defined.

Lemma history_cons_after_save f f' clk q a c k d :
  Forall (fun m => timestamp m < now clk) (rows d) ->
  fst (save_message f clk q a c d) = Returned true ->
  healthy f' = true ->
  1 <= k <= 2 ^ 63 - 1 ->
  exists before,
    fst (get_chat_history f' (Some c) (k - 1) d) = Returned before /\
    fst (get_chat_history f' (Some c) k (snd (save_message f clk q a c d)))
    = Returned (new_row (rows d) clk q a c :: before).
Proof.
  intros Hclk Hsave Hf' Hk. rewrite save_message_eq in *.
  destruct (storage_fails f d || Sql.index_taken (rows d) c (now clk));
    [discriminate|].
  rewrite !get_chat_history_eq, !(healthy_query_ok _ _ _ Hf') by lia.
  cbn [fst snd rows]. eexists. split; [reflexivity|]. f_equal.
  rewrite filter_app.
  assert ((if String.eqb c "" then true
           else in_chat c (new_row (rows d) clk q a c)) = true) as Hp.
  { destruct (String.eqb c ""); [reflexivity|]. apply String.eqb_refl. }
  cbn [filter]. rewrite Hp.
  rewrite order_by_desc_newest_last.
  - rewrite !apply_limit_firstn by lia.
    replace (Z.to_nat k) with (S (Z.to_nat (k - 1))) by lia. reflexivity.
  - rewrite Forall_forall in *. intros y Hy. apply filter_In in Hy.
    now apply Hclk.
Qed.

(** X8.  After a [save_message] that returned [True] at a time later than
    every stored message, the history of that conversation with a limit
    [k >= 1] that fits 64 bits is the new message followed by what the
    history with limit [k - 1] was before the save. *)
Theorem history_after_save f f' clk q a c k d :
  Forall (fun m => timestamp m < now clk) (rows d) ->
  fst (save_message f clk q a c d) = Returned true ->
  healthy f' = true ->
  1 <= k <= 2 ^ 63 - 1 ->
  exists before,
    fst (get_chat_history f' (Some c) (k - 1) d) = Returned before /\
    fst (get_chat_history f' (Some c) k (snd (save_message f clk q a c d)))
    = Returned (new_row (rows d) clk q a c :: before).
Proof. apply history_cons_after_save. Qed.

Lemma history_after_save_witness :
  exists before,
    fst (get_chat_history no_faults (Some "c1") 49 Scenario.db1)
    = Returned before /\
    fst (get_chat_history no_faults (Some "c1") 50 Scenario.db2)
    = Returned (Scenario.row2 :: before).
Proof.
  apply (history_after_save no_faults no_faults (Scenario.at_time 2)
           "Follow-up" "More info" "c1" 50 Scenario.db1).
  - vm_compute. repeat constructor.
  - reflexivity.
  - reflexivity.
  - lia.
Defined.

(** X9.  Two saves into one conversation at the same reading of the clock:
    after a [save_message] that returned [True], a further one with the
    same chat_id and the same timestamp returns [False] and stores
    nothing, whatever its question and answer. *)
Theorem second_save_same_tick_is_dropped f clk q a c d f2 clk2 q2 a2 :
  fst (save_message f clk q a c d) = Returned true ->
  now clk2 = now clk ->
  fst (save_message f2 clk2 q2 a2 c (snd (save_message f clk q a c d)))
  = Returned false /\
  rows (snd (save_message f2 clk2 q2 a2 c (snd (save_message f clk q a c d))))
  = rows (snd (save_message f clk q a c d)).
Proof.
  intros Hsave Hnow. rewrite (save_message_eq f) in *.
  destruct (storage_fails f d || Sql.index_taken (rows d) c (now clk));
    [discriminate|].
  cbn [snd]. rewrite save_message_eq. cbn [rows].
  replace (Sql.index_taken (rows d ++ [new_row (rows d) clk q a c]) c (now clk2))
    with true.
  - rewrite orb_true_r. split; reflexivity.
  - symmetry. apply index_taken_iff. exists (new_row (rows d) clk q a c).
    split; [apply in_or_app; right; now left|]. split; [reflexivity|].
    now rewrite Hnow.
Qed.

Lemma second_save_same_tick_is_dropped_witness :
  fst (save_message no_faults (Scenario.at_time 2) "Once more" "Yes" "c1"
         Scenario.db2) = Returned false /\
  rows (snd (save_message no_faults (Scenario.at_time 2) "Once more" "Yes" "c1"
               Scenario.db2)) = rows Scenario.db2.
Proof.
  apply (second_save_same_tick_is_dropped no_faults (Scenario.at_time 2)
           "Follow-up" "More info" "c1" Scenario.db1
           no_faults (Scenario.at_time 2) "Once more" "Yes").
  - reflexivity.
  - reflexivity.
Defined.

Lemma next_rowid_above t :
  0 < Sql.next_rowid t /\ Forall (fun m => id m < Sql.next_rowid t) t.
Proof.
  unfold Sql.next_rowid. induction t as [|m t [IH0 IH]]; cbn [fold_right].
  - split; [lia|constructor].
  - split; [lia|]. constructor; [lia|].
    eapply Forall_impl; [|exact IH]. cbv beta. intros; lia.
Qed.

(** X10.  In every reachable state the ids of the stored rows are
    positive and go strictly up along the table; so no two rows share an
    id. *)
Theorem row_ids_increase d :
  reachable d ->
  Forall (fun m => 0 < id m) (rows d) /\
  StronglySorted (fun m m' => id m < id m') (rows d) /\
  NoDup (map id (rows d)).
Proof.
  intro Hr.
  assert (Forall (fun m => 0 < id m) (rows d) /\
          StronglySorted (fun m m' => id m < id m') (rows d)) as [Hpos Hs].
  { induction Hr as [|d f clk q a c Hr [IHp IHs]|d f c k Hr IH
                     |d f c Hr [IHp IHs]|d f Hr IH|d f q k Hr IH].
    - split; constructor.
    - rewrite save_message_eq.
      destruct (storage_fails f d || Sql.index_taken _ _ _); cbn [snd rows];
        [tauto|].
      destruct (next_rowid_above (rows d)) as [H0 Habove]. split.
      + apply Forall_app. split; [exact IHp|]. now repeat constructor.
      + now apply StronglySorted_snoc.
    - now rewrite get_chat_history_eq.
    - rewrite delete_chat_eq. destruct (storage_fails f d); cbn [snd rows];
        [tauto|]. split.
      + rewrite Forall_forall in *. intros m Hm. apply filter_In in Hm.
        now apply IHp.
      + now apply StronglySorted_filter.
    - now rewrite get_chat_folders_eq.
    - now rewrite search_messages_eq. }
  split; [exact Hpos|]. split; [exact Hs|].
  clear Hpos. induction Hs as [|m t Hs IH Hf]; simpl; constructor.
  - intro Hin. apply in_map_iff in Hin. destruct Hin as (m' & E & Hm').
    rewrite Forall_forall in Hf. specialize (Hf m' Hm'). lia.
  - exact IH.
Qed.

Lemma row_ids_increase_witness :
  reachable Scenario.db4 /\ NoDup (map id (rows Scenario.db4)).
Proof.
  assert (reachable Scenario.db4) as Hr by (do 4 apply reach_save; constructor).
  split; [exact Hr|]. apply (row_ids_increase Scenario.db4 Hr).
Defined.

(* ================================================================= *)
(** ** Further properties of the conversation summaries *)

Lemma summary_chat t c x : In x (summary t c) -> folder_chat_id x = c.
Proof.
  unfold summary. destruct (filter (in_chat c) t); [contradiction|].
  now intros [<-|[]].
Qed.

Lemma group_by_chat_id_iff t x :
  In x (group_by_chat_id t) <->
  exists c, In c (map chat_id t) /\ In x (summary t c).
Proof.
  unfold group_by_chat_id. rewrite in_flat_map.
  split; intros (c & Hc & Hx); exists c; (split; [|exact Hx]).
  - now apply stored_chat_ids_In in Hc.
  - now apply stored_chat_ids_In.
Qed.

Lemma unique_index_same_row t m m' :
  unique_index t -> In m t -> In m' t ->
  chat_id m' = chat_id m -> timestamp m' = timestamp m -> m' = m.
Proof.
  unfold unique_index. induction t as [|x t IH]; simpl; [contradiction|].
  intros Hu Hm Hm' Hc Ht. inversion Hu as [|? ? Hn Hd]; subst.
  assert (Sql.index_key m' = Sql.index_key m) as Hk
    by (unfold Sql.index_key; now rewrite Hc, Ht).
  destruct Hm as [->|Hm], Hm' as [->|Hm']; auto.
  - exfalso. apply Hn. rewrite <- Hk. now apply in_map.
  - exfalso. apply Hn. rewrite Hk. now apply in_map.
Qed.

(** X11.  In a reachable state each entry of [get_chat_folders] shows the
    question of the most recent message of its conversation: the stored
    message whose timestamp is [last_message], every other message of the
    conversation being strictly older. *)
Theorem folder_shows_latest_question f d fs x :
  reachable d ->
  fst (get_chat_folders f d) = Returned fs ->
  In x fs ->
  exists m,
    In m (rows d) /\ chat_id m = folder_chat_id x /\
    timestamp m = last_message x /\ question m = folder_question x /\
    forall m', In m' (rows d) -> chat_id m' = folder_chat_id x -> m' <> m ->
               timestamp m' < timestamp m.
Proof.
  intros Hr E Hx. rewrite get_chat_folders_eq in E. cbn [fst] in E.
  apply Returned_inj in E. subst fs.
  destruct (storage_fails f d); [contradiction|].
  apply folders_order_In, group_by_chat_id_In in Hx.
  destruct Hx as (top & -> & Ht & Hmax). exists top.
  cbn [folder_chat_id folder_question last_message].
  repeat split; auto. intros m' Hm' Hc Hne.
  specialize (Hmax m' Hm' Hc).
  destruct (Z.eq_dec (timestamp m') (timestamp top)) as [E|]; [|lia].
  exfalso. apply Hne.
  apply (unique_index_same_row (rows d)); auto.
  now apply reachable_unique_index.
Qed.

Lemma folder_shows_latest_question_witness :
  exists m,
    In m (rows Scenario.db2) /\ timestamp m = 2 /\ question m = "Follow-up".
Proof.
  destruct (folder_shows_latest_question no_faults Scenario.db2
              [mkFolder "c1" "Follow-up" 2] (mkFolder "c1" "Follow-up" 2))
    as (m & Hm & _ & Ht & Hq & _).
  - do 2 apply reach_save. constructor.
  - reflexivity.
  - now left.
  - exists m. auto.
Defined.

(** X12.  After a [save_message] that returned [True] at a time later
    than every stored message, [get_chat_folders] lists that conversation
    first, with the saved question and the time of the save. *)
Theorem folders_after_save f f' clk q a c d :
  Forall (fun m => timestamp m < now clk) (rows d) ->
  fst (save_message f clk q a c d) = Returned true ->
  healthy f' = true ->
  exists rest,
    fst (get_chat_folders f' (snd (save_message f clk q a c d)))
    = Returned (mkFolder c q (now clk) :: rest).
Proof.
  intros Hclk Hsave Hf'. rewrite save_message_eq in *.
  destruct (storage_fails f d || Sql.index_taken (rows d) c (now clk));
    [discriminate|].
  rewrite get_chat_folders_eq, (healthy_not_fails _ _ Hf').
  cbn [fst snd rows].
  set (new := new_row (rows d) clk q a c).
  set (t' := rows d ++ [new]).
  set (F := mkFolder c q (now clk)).
  rewrite Forall_forall in Hclk.
  assert (forall top, In top t' -> top = new \/ timestamp top < now clk)
    as Hrows.
  { intros top Ht. apply in_app_or in Ht.
    destruct Ht as [Ht|[<-|[]]]; [right; now apply Hclk|now left]. }
  assert (forall y, In y (group_by_chat_id t') ->
                    last_message y < now clk \/ y = F) as Hall.
  { intros y Hy. apply group_by_chat_id_In in Hy.
    destruct Hy as (top & -> & Ht & _).
    destruct (Hrows top Ht) as [->|Hlt]; [now right|now left]. }
  assert (In F (group_by_chat_id t')) as HF.
  { assert (In c (map folder_chat_id (group_by_chat_id t'))) as Hc.
    { rewrite group_by_chat_id_ids. apply stored_chat_ids_In. unfold t'.
      rewrite map_app. apply in_or_app. right. now left. }
    apply in_map_iff in Hc. destruct Hc as (y & Ey & Hy).
    pose proof Hy as Hy'. apply group_by_chat_id_In in Hy'.
    destruct Hy' as (top & -> & Ht & Hmax). cbn [folder_chat_id] in Ey.
    destruct (Hrows top Ht) as [->|Hlt]; [exact Hy|].
    exfalso.
    assert (timestamp new <= timestamp top) as Hle.
    { apply Hmax; [|now rewrite Ey].
      unfold t'. apply in_or_app. right. now left. }
    cbn [new new_row timestamp] in Hle. lia. }
  pose proof (order_by_desc_sorted last_message (rev (group_by_chat_id t')))
    as Hs.
  apply folders_order_In in HF.
  assert (forall y, In y (Sql.order_by_desc last_message
                            (rev (group_by_chat_id t')))
                    -> last_message y < now clk \/ y = F) as Hall'.
  { intros y Hy. apply Hall. now apply folders_order_In in Hy. }
  destruct (Sql.order_by_desc last_message (rev (group_by_chat_id t')))
    as [|h tl]; [contradiction|].
  exists tl. f_equal.
  destruct (Hall' h (or_introl eq_refl)) as [Hlt| ->]; [|reflexivity].
  destruct HF as [->|HF]; [reflexivity|].
  inversion Hs as [|? ? _ Hf]; subst. rewrite Forall_forall in Hf.
  specialize (Hf F HF). cbn [F last_message] in Hf. lia.
Qed.

Lemma folders_after_save_witness :
  exists rest,
    fst (get_chat_folders no_faults
           (snd (save_message no_faults (Scenario.at_time 3) "Third" "Yes" ""
                   Scenario.db4)))
    = Returned (mkFolder "" "Third" 3 :: rest).
Proof.
  apply (folders_after_save no_faults no_faults (Scenario.at_time 3)
           "Third" "Yes" "" Scenario.db4).
  - vm_compute. repeat constructor.
  - reflexivity.
  - reflexivity.
Defined.

(** X13.  After a [delete_chat(X)] that the storage medium served, the
    entries of [get_chat_folders] are those from before the deletion
    except the one of X. *)
Theorem folders_after_delete f f' X d fs fs' x :
  healthy f = true ->
  healthy f' = true ->
  fst (get_chat_folders f' d) = Returned fs ->
  fst (get_chat_folders f' (snd (delete_chat f X d))) = Returned fs' ->
  (In x fs' <-> In x fs /\ folder_chat_id x <> X).
Proof.
  intros Hf Hf' E E'.
  rewrite delete_chat_eq, (healthy_not_fails _ _ Hf) in E'.
  rewrite get_chat_folders_eq in E, E'.
  rewrite (healthy_not_fails f' _ Hf') in E.
  rewrite (healthy_not_fails f' _ Hf') in E'.
  cbn [fst snd rows] in E, E'. apply Returned_inj in E, E'. subst fs fs'.
  rewrite !folders_order_In, !group_by_chat_id_iff.
  set (t' := filter (fun m => negb (in_chat X m)) (rows d)).
  assert (forall c, In c (map chat_id t') <->
                    In c (map chat_id (rows d)) /\ c <> X) as Hchats.
  { intro c. unfold t'. rewrite !in_map_iff. split.
    - intros (m & <- & Hm). apply filter_In in Hm. destruct Hm as [Hm Hn].
      split; [eauto|]. intro Hc. unfold in_chat in Hn.
      rewrite Hc, String.eqb_refl in Hn. discriminate.
    - intros ((m & <- & Hm) & Hne). exists m. split; [reflexivity|].
      apply filter_In. split; [exact Hm|].
      apply negb_true_iff, String.eqb_neq. exact Hne. }
  assert (forall c, c <> X -> summary t' c = summary (rows d) c) as Hsum.
  { intros c Hne. unfold summary, t'. rewrite filter_other_chat; auto. }
  split.
  - intros (c & Hc & Hx). apply Hchats in Hc. destruct Hc as [Hc Hne].
    rewrite (Hsum c Hne) in Hx. split; [eauto|].
    now rewrite (summary_chat _ _ _ Hx).
  - intros ((c & Hc & Hx) & Hne). exists c.
    assert (c <> X) as Hne' by now rewrite <- (summary_chat _ _ _ Hx).
    split; [apply Hchats; tauto|]. now rewrite (Hsum c Hne').
Qed.

Lemma folders_after_delete_witness :
  In (mkFolder "" "Again" 2) [mkFolder "" "Again" 2] <->
  In (mkFolder "" "Again" 2) [mkFolder "" "Again" 2; mkFolder "c1" "Follow-up" 2]
  /\ "" <> "c1".
Proof.
  apply (folders_after_delete no_faults no_faults "c1" Scenario.db4
           [mkFolder "" "Again" 2; mkFolder "c1" "Follow-up" 2]
           [mkFolder "" "Again" 2] (mkFolder "" "Again" 2)).
  - reflexivity.
  - reflexivity.
  - reflexivity.
  - reflexivity.
Defined.

(* ================================================================= *)
(** ** Further properties of the search *)

Lemma contains_empty s : Sql.contains s "" = true.
Proof.
  unfold Sql.contains. cbn [Sql.has_nul].
  destruct (Sql.c_string s); reflexivity.
Qed.

(** X14.  A search for the empty text matches every message:
    [search_messages("", k)] returns what [get_chat_history(None, k)]
    returns. *)
Theorem search_empty_query f k d :
  search_messages f "" k d = get_chat_history f None k d.
Proof.
  rewrite search_messages_eq, get_chat_history_eq.
  replace (search_fails f "" k d) with (query_fails f k d)
    by (unfold search_fails; now rewrite orb_false_r).
  rewrite (filter_ext (matches "") (fun _ => true)); [reflexivity|].
  intro m. unfold matches. now rewrite contains_empty.
Qed.

Lemma like_prefix_fold q q' s :
  fold_case q = fold_case q' -> Sql.like_prefix q s = Sql.like_prefix q' s.
Proof.
  intro E. apply eq_true_iff_eq. rewrite !like_prefix_iff.
  now rewrite E.
Qed.

Lemma like_contains_fold q q' s :
  fold_case q = fold_case q' ->
  Sql.like_contains s q = Sql.like_contains s q'.
Proof.
  intro E. induction s as [|c s IH]; cbn [Sql.like_contains].
  - now rewrite (like_prefix_fold q q').
  - now rewrite (like_prefix_fold q q'), IH.
Qed.

Lemma like_equal_fold q q' s :
  fold_case q = fold_case q' -> Sql.like_equal q s = Sql.like_equal q' s.
Proof.
  revert q' s. induction q as [|a q IH]; intros [|a' q'] s E;
    simpl in E; try discriminate; [reflexivity|].
  injection E as Ha E. destruct s as [|b s]; [reflexivity|].
  cbn [Sql.like_equal]. now rewrite Ha, (IH q' s E).
Qed.

Lemma like_ends_with_fold q q' s :
  fold_case q = fold_case q' ->
  Sql.like_ends_with s q = Sql.like_ends_with s q'.
Proof.
  intro E. induction s as [|c s IH]; cbn [Sql.like_ends_with].
  - now rewrite (like_equal_fold q q').
  - now rewrite (like_equal_fold q q'), IH.
Qed.

(** Folding the case of a letter changes neither what [LIKE] and peewee
    look at in a character. *)
Lemma tolower_is_nul c :
  Ascii.eqb (Sql.tolower c) Ascii.zero = Ascii.eqb c Ascii.zero.
Proof. destruct c as [[] [] [] [] [] [] [] []]; reflexivity. Qed.

Lemma tolower_is_wildcard c : Sql.is_wildcard (Sql.tolower c) = Sql.is_wildcard c.
Proof. destruct c as [[] [] [] [] [] [] [] []]; reflexivity. Qed.

Lemma tolower_is_small c :
  (N_of_ascii (Sql.tolower c) <? 128)%N = (N_of_ascii c <? 128)%N.
Proof. destruct c as [[] [] [] [] [] [] [] []]; reflexivity. Qed.

Section SameFold.

Variables q q' : string.
Hypothesis same_fold : fold_case q = fold_case q'.

Lemma has_nul_fold : Sql.has_nul q = Sql.has_nul q'.
Proof.
  revert q' same_fold. induction q as [|a s IH]; intros [|a' s'] E;
    simpl in E; try discriminate; [reflexivity|].
  injection E as Ha E. cbn [Sql.has_nul].
  now rewrite <- (tolower_is_nul a), Ha, tolower_is_nul, (IH s' E).
Qed.

Lemma has_wildcard_fold : Sql.has_wildcard q = Sql.has_wildcard q'.
Proof.
  revert q' same_fold. induction q as [|a s IH]; intros [|a' s'] E;
    simpl in E; try discriminate; [reflexivity|].
  injection E as Ha E. cbn [Sql.has_wildcard].
  now rewrite <- (tolower_is_wildcard a), Ha, tolower_is_wildcard, (IH s' E).
Qed.

Lemma c_string_fold :
  fold_case (Sql.c_string q) = fold_case (Sql.c_string q').
Proof.
  revert q' same_fold. induction q as [|a s IH]; intros [|a' s'] E;
    simpl in E; try discriminate; [reflexivity|].
  injection E as Ha E. cbn [Sql.c_string].
  rewrite <- (tolower_is_nul a), Ha, tolower_is_nul.
  destruct (Ascii.eqb a' Ascii.zero); [reflexivity|].
  cbn [fold_case]. now rewrite Ha, (IH s' E).
Qed.

Lemma utf8_length_fold : Sql.utf8_length q = Sql.utf8_length q'.
Proof.
  revert q' same_fold. induction q as [|a s IH]; intros [|a' s'] E;
    simpl in E; try discriminate; [reflexivity|].
  injection E as Ha E. cbn [Sql.utf8_length].
  now rewrite <- (tolower_is_small a), Ha, tolower_is_small, (IH s' E).
Qed.

Lemma utf8_length_escape_fold :
  Sql.utf8_length (Sql.escape_like q) = Sql.utf8_length (Sql.escape_like q').
Proof.
  revert q' same_fold. induction q as [|a s IH]; intros [|a' s'] E;
    simpl in E; try discriminate; [reflexivity|].
  injection E as Ha E. cbn [Sql.escape_like].
  rewrite <- (tolower_is_wildcard a), Ha, tolower_is_wildcard.
  destruct (Sql.is_wildcard a'); cbn [Sql.utf8_length];
    now rewrite <- (tolower_is_small a), Ha, tolower_is_small, (IH s' E).
Qed.

End SameFold.

Lemma utf8_length_append s1 s2 :
  Sql.utf8_length (s1 ++ s2)%string = Sql.utf8_length s1 + Sql.utf8_length s2.
Proof.
  induction s1 as [|c s1 IH]; cbn [String.append Sql.utf8_length]; lia.
Qed.

Lemma pattern_too_complex_fold q q' :
  fold_case q = fold_case q' ->
  Sql.pattern_too_complex q = Sql.pattern_too_complex q'.
Proof.
  intro E. unfold Sql.pattern_too_complex, Sql.like_pattern.
  rewrite !utf8_length_append, (has_wildcard_fold q q' E).
  destruct (Sql.has_wildcard q').
  - now rewrite (utf8_length_escape_fold q q' E).
  - now rewrite (utf8_length_fold q q' E).
Qed.

Lemma contains_fold q q' s :
  fold_case q = fold_case q' -> Sql.contains s q = Sql.contains s q'.
Proof.
  intro E. unfold Sql.contains. rewrite (has_nul_fold q q' E).
  destruct (Sql.has_nul q').
  - apply like_ends_with_fold, c_string_fold, E.
  - now apply like_contains_fold.
Qed.

(** X15.  The case of the ASCII letters of the query does not matter: two
    queries that agree once their letters are folded to lower case give
    the same search result. *)
Theorem search_ignores_case_of_query f q q' k d :
  fold_case q = fold_case q' ->
  search_messages f q k d = search_messages f q' k d.
Proof.
  intro E. rewrite !search_messages_eq. unfold search_fails.
  rewrite (pattern_too_complex_fold q q' E).
  rewrite (filter_ext (matches q) (matches q')); [reflexivity|].
  intro m. unfold matches. now rewrite !(contains_fold q q').
Qed.

Lemma search_ignores_case_of_query_witness :
  search_messages no_faults "AI" 10 Scenario.db2
  = search_messages no_faults "ai" 10 Scenario.db2.
Proof.
  apply (search_ignores_case_of_query no_faults "AI" "ai" 10 Scenario.db2).
  reflexivity.
Defined.

(** X16.  The search misses no exact occurrence: take a query without NUL
    character whose pattern has at most 50000 bytes and a limit that fits
    64 bits and does not cut.  When the storage medium serves the call,
    every stored message whose question or answer, read up to its first
    NUL character, holds the query letter for letter is returned. *)
Theorem search_finds_exact_occurrences f q k d m :
  healthy f = true ->
  - 2 ^ 63 <= k <= 2 ^ 63 - 1 ->
  k < 0 \/ Z.of_nat (List.length (rows d)) <= k ->
  Sql.has_nul q = false ->
  Sql.pattern_too_complex q = false ->
  In m (rows d) ->
  substring q (Sql.c_string (question m)) \/
  substring q (Sql.c_string (answer m)) ->
  exists l, fst (search_messages f q k d) = Returned l /\ In m l.
Proof.
  intros Hf Hk64 Hk Hnul Hpat Hm Hsub.
  rewrite search_messages_eq, (healthy_search_ok f q k d Hf Hk64 Hpat).
  cbn [fst]. eexists. split; [reflexivity|].
  rewrite apply_limit_all.
  - apply order_by_desc_In, filter_In. split; [exact Hm|].
    apply (matches_iff q m Hnul).
    destruct Hsub as [(pre & post & E)|(pre & post & E)]; [left|right];
      exists pre, q, post; auto.
  - rewrite order_by_desc_length.
    pose proof (filter_length_le (matches q) (rows d)). lia.
Qed.

Lemma search_finds_exact_occurrences_witness :
  exists l,
    fst (search_messages no_faults "AI" 10 Scenario.db2) = Returned l /\
    In Scenario.row1 l.
Proof.
  apply (search_finds_exact_occurrences no_faults "AI" 10 Scenario.db2
           Scenario.row1).
  - reflexivity.
  - lia.
  - right. vm_compute. discriminate.
  - reflexivity.
  - vm_compute. reflexivity.
  - vm_compute. tauto.
  - left. exists "What is ", "?". reflexivity.
Defined.

(* ================================================================= *)
(** ** Texts: slices, [strip] and [split] *)

Section Texts.

Local Open Scope string_scope.
Local Open Scope nat_scope.

Lemma append_nil_r s : s ++ "" = s.
Proof. induction s as [|c s IH]; simpl; congruence. Qed.

Lemma append_assoc s1 s2 s3 : (s1 ++ s2) ++ s3 = s1 ++ (s2 ++ s3).
Proof. induction s1 as [|c s1 IH]; simpl; congruence. Qed.

Lemma length_append s1 s2 :
  String.length (s1 ++ s2) = String.length s1 + String.length s2.
Proof. induction s1 as [|c s1 IH]; simpl; congruence. Qed.

Lemma append_inv_length a a' b b' :
  a ++ b = a' ++ b' -> String.length a = String.length a' ->
  a = a' /\ b = b'.
Proof.
  revert a'. induction a as [|c a IH]; intros [|c' a'] E Hl;
    simpl in *; try discriminate; auto.
  injection E as -> E. destruct (IH a' E) as [-> ->]; auto.
Qed.

Lemma take_length n s :
  String.length (App.take n s) = Nat.min n (String.length s).
Proof.
  revert s. induction n as [|n IH]; intros [|c s]; simpl; auto.
Qed.

Lemma take_all n s : String.length s <= n -> App.take n s = s.
Proof.
  revert s. induction n as [|n IH]; intros [|c s]; simpl; intro H;
    try reflexivity; try lia.
  f_equal. apply IH. lia.
Qed.

Lemma take_prefix n s : exists rest, s = App.take n s ++ rest.
Proof.
  revert s. induction n as [|n IH]; intros [|c s]; simpl; eauto.
  destruct (IH s) as [rest E]. exists rest. now rewrite <- E.
Qed.

Lemma prefixb_append m x : prefixb m (m ++ x) = true.
Proof.
  induction m as [|c m IH]; simpl; [reflexivity|].
  now rewrite Ascii.eqb_refl, IH.
Qed.

Lemma substring_trans q s pre post :
  substring q s -> substring q (pre ++ s ++ post).
Proof.
  intros (p1 & p2 & ->). exists (pre ++ p1), (p2 ++ post).
  now rewrite !append_assoc.
Qed.

(** [strip] cuts at both ends and nowhere else. *)
Lemma lstrip_suffix s : exists pre, s = pre ++ App.lstrip s.
Proof.
  induction s as [|c s [pre IH]]; simpl.
  - now exists "".
  - destruct (App.isspace c).
    + exists (String c pre). simpl. now rewrite <- IH.
    + now exists "".
Qed.

Lemma rstrip_prefix s : exists post, s = App.rstrip s ++ post.
Proof.
  induction s as [|c s [post IH]]; simpl.
  - now exists "".
  - destruct (App.rstrip s) as [|c' r].
    + destruct (App.isspace c).
      * exists (String c s). reflexivity.
      * exists s. reflexivity.
    + exists post. simpl in *. now rewrite <- IH.
Qed.

Lemma strip_infix s : exists pre post, s = pre ++ App.strip s ++ post.
Proof.
  unfold App.strip. destruct (lstrip_suffix s) as [pre E].
  destruct (rstrip_prefix (App.lstrip s)) as [post E'].
  exists pre, post. now rewrite <- E', <- E.
Qed.

Lemma rstrip_idempotent s : App.rstrip (App.rstrip s) = App.rstrip s.
Proof.
  induction s as [|c s IH]; simpl; [reflexivity|].
  destruct (App.rstrip s) as [|c' r] eqn:E.
  - destruct (App.isspace c) eqn:Ec; simpl; [reflexivity|]. now rewrite Ec.
  - change (App.rstrip (String c (String c' r))) with
      (match App.rstrip (String c' r) with
       | "" => if App.isspace c then "" else String c ""
       | r' => String c r'
       end).
    now rewrite IH.
Qed.

Lemma lstrip_idempotent s : App.lstrip (App.lstrip s) = App.lstrip s.
Proof.
  induction s as [|c s IH]; simpl; [reflexivity|].
  destruct (App.isspace c) eqn:Ec; [exact IH|]. simpl. now rewrite Ec.
Qed.

Lemma lstrip_length s : String.length (App.lstrip s) <= String.length s.
Proof.
  induction s as [|c s IH]; simpl; [lia|].
  destruct (App.isspace c); simpl; lia.
Qed.

Lemma lstrip_rstrip s :
  App.lstrip s = s -> App.lstrip (App.rstrip s) = App.rstrip s.
Proof.
  destruct s as [|c s]; [reflexivity|]. intro H.
  assert (App.isspace c = false) as Ec.
  { simpl in H. destruct (App.isspace c); [|reflexivity].
    pose proof (lstrip_length s) as Hl. rewrite H in Hl. simpl in Hl. lia. }
  simpl. destruct (App.rstrip s); [rewrite Ec|]; simpl; now rewrite Ec.
Qed.

Lemma strip_clean s :
  App.lstrip (App.strip s) = App.strip s /\
  App.rstrip (App.strip s) = App.strip s.
Proof.
  unfold App.strip. split.
  - apply lstrip_rstrip, lstrip_idempotent.
  - apply rstrip_idempotent.
Qed.

(** [split] always yields a piece. *)
Lemma split_from_nonempty sep s skip cur : App.split_from sep skip cur s <> [].
Proof.
  revert skip cur. induction s as [|c s IH]; intros skip cur; simpl.
  - discriminate.
  - destruct skip; [|apply IH].
    destruct (prefixb sep (String c s)); [discriminate|apply IH].
Qed.

Lemma last_cons_nonempty {A} (x : A) l d : l <> [] -> last (x :: l) d = last l d.
Proof. destruct l; [congruence|reflexivity]. Qed.

(** The last piece starts behind the last separator the scan finds, and
    no separator starts in it. *)
Lemma split_from_last_clean sep s skip cur :
  sep <> "" ->
  (skip = 0 ->
   forall pre post, cur ++ s = pre ++ post ->
                    String.length pre < String.length cur ->
                    prefixb sep post = false) ->
  (skip <> 0 -> cur = "") ->
  substringb sep (last (App.split_from sep skip cur s) "") = false.
Proof.
  intro Hsep. revert skip cur.
  induction s as [|c s IH]; intros skip cur Hinv Hskip.
  - simpl. destruct skip as [|n].
    + destruct (substringb sep cur) eqn:E; [|reflexivity]. exfalso.
      apply substringb_iff in E. destruct E as (pre & post & E).
      assert (prefixb sep (sep ++ post) = false) as H.
      { apply (Hinv eq_refl pre).
        - now rewrite append_nil_r.
        - rewrite E, !length_append.
          destruct sep; [congruence|simpl; lia]. }
      rewrite prefixb_append in H. discriminate.
    + rewrite Hskip by discriminate.
      destruct sep; [congruence|reflexivity].
  - cbn [App.split_from]. destruct skip as [|n].
    + destruct (prefixb sep (String c s)) eqn:Ep.
      * rewrite last_cons_nonempty by apply split_from_nonempty.
        apply IH; [intros _ pre post _ Hl; simpl in Hl; lia|reflexivity].
      * apply IH; [|congruence]. intros _ pre post E Hl.
        rewrite append_assoc in E. simpl in E.
        rewrite length_append in Hl. simpl in Hl.
        destruct (Nat.eq_dec (String.length pre) (String.length cur)) as [El|].
        -- symmetry in E. apply append_inv_length in E; [|exact El].
           destruct E as [_ ->]. exact Ep.
        -- apply (Hinv eq_refl pre post E). lia.
    + apply IH; [intros _ pre post _ Hl|intros _; apply Hskip; discriminate].
      rewrite (Hskip ltac:(discriminate)) in Hl. simpl in Hl. lia.
Qed.

Lemma split_last_clean sep s :
  sep <> "" -> ~ substring sep (last (App.split sep s) "").
Proof.
  intros Hsep H. apply substringb_iff in H.
  unfold App.split in H. rewrite split_from_last_clean in H; auto.
  - discriminate.
  - intros _ pre post _ Hl. simpl in Hl. lia.
Qed.

(** A text without the separator is one piece. *)
Lemma split_from_no_separator sep s cur :
  substringb sep s = false -> App.split_from sep 0 cur s = [cur ++ s].
Proof.
  revert cur. induction s as [|c s IH]; intros cur H.
  - simpl. now rewrite append_nil_r.
  - cbn [substringb] in H. apply orb_false_iff in H. destruct H as [Hp Hs].
    cbn [App.split_from]. rewrite Hp, (IH _ Hs), append_assoc. reflexivity.
Qed.

End Texts.

(* ================================================================= *)
(** ** What the sidebar shows *)

(** X17.  The label of a folder is never longer than 33 characters: a
    question of at most 30 characters is its own label, a longer one is
    cut to its first 30 characters followed by three dots. *)
Theorem preview_bounded q :
  (String.length (App.preview q) <= 33)%nat /\
  ((String.length q <= 30)%nat -> App.preview q = q) /\
  ((30 < String.length q)%nat ->
   App.preview q = (App.take 30 q ++ "...")%string /\
   String.length (App.preview q) = 33%nat /\
   exists rest, q = (App.take 30 q ++ rest)%string).
Proof.
  unfold App.preview.
  destruct (Nat.ltb_spec 30 (String.length q)) as [H|H].
  - split; [|split].
    + rewrite length_append, take_length.
      change (String.length "...") with 3%nat. lia.
    + lia.
    + intros _. split; [reflexivity|]. split; [|apply take_prefix].
      rewrite length_append, take_length.
      change (String.length "...") with 3%nat. lia.
  - split; [lia|]. split; [reflexivity|lia].
Qed.

Lemma preview_bounded_witness :
  App.preview "What is AI?" = "What is AI?" /\
  App.preview "Tell me about artificial intelligence"
  = "Tell me about artificial intel...".
Proof.
  split.
  - apply (preview_bounded "What is AI?"). vm_compute. lia.
  - apply (preview_bounded "Tell me about artificial intelligence").
    vm_compute. lia.
Defined.

(** X18.  The lines shown for a stored message always end in three dots,
    also when nothing was cut: a question of at most 50 characters and an
    answer of at most 100 are shown whole with the dots behind them; the
    lines are never longer than 60 and 110 characters. *)
Theorem message_lines_always_dotted m :
  (String.length (App.question_line m) <= 60)%nat /\
  (String.length (App.answer_line m) <= 110)%nat /\
  ((String.length (question m) <= 50)%nat ->
   App.question_line m = ("**Q:** " ++ question m ++ "...")%string) /\
  ((String.length (answer m) <= 100)%nat ->
   App.answer_line m = ("**A:** " ++ answer m ++ "...")%string).
Proof.
  unfold App.question_line, App.answer_line. repeat split.
  - rewrite !length_append, take_length.
    change (String.length "**Q:** ") with 7%nat.
    change (String.length "...") with 3%nat. lia.
  - rewrite !length_append, take_length.
    change (String.length "**A:** ") with 7%nat.
    change (String.length "...") with 3%nat. lia.
  - intro H. now rewrite take_all.
  - intro H. now rewrite take_all.
Qed.

Lemma message_lines_always_dotted_witness :
  App.question_line Scenario.row1 = "**Q:** What is AI?..." /\
  App.answer_line Scenario.row1 = "**A:** AI is......".
Proof.
  destruct (message_lines_always_dotted Scenario.row1) as (_ & _ & Hq & Ha).
  split; [apply Hq|apply Ha]; vm_compute; lia.
Defined.

(* ================================================================= *)
(** ** Generating an answer *)

Lemma marker_not_empty : App.marker <> EmptyString.
Proof. discriminate. Qed.

(** The marker starts with the only ["<"] it holds, so an occurrence
    cannot run into the next one. *)
Lemma marker_no_overlap pre cont :
  prefixb App.marker (pre ++ App.marker ++ cont)%string = true ->
  pre = EmptyString \/ (12 <= String.length pre)%nat.
Proof.
  intro H.
  destruct pre as [|c0 pre]; [now left|]. right.
  do 11 (destruct pre as [|? pre];
         [exfalso; cbn in H;
          repeat match type of H with
                 | (_ && _)%bool = true =>
                     let H' := fresh in
                     apply andb_prop in H; destruct H as [H' H]
                 end;
          discriminate|]).
  simpl. lia.
Qed.

Lemma split_from_marker cur cont :
  App.split_from App.marker 0 cur (App.marker ++ cont)%string
  = cur :: App.split_from App.marker 0 EmptyString cont.
Proof. reflexivity. Qed.

(** Behind a prompt that ends in the marker, the last piece is what
    follows the prompt. *)
Lemma split_from_past_prompt cont pre skip cur :
  substringb App.marker cont = false ->
  (skip <= String.length pre)%nat ->
  last (App.split_from App.marker skip cur (pre ++ App.marker ++ cont)%string)
       EmptyString = cont.
Proof.
  intro Hc. revert skip cur. induction pre as [|c pre IH]; intros skip cur Hs.
  - assert (skip = 0%nat) as -> by (simpl in Hs; lia).
    change (EmptyString ++ App.marker ++ cont)%string
      with (App.marker ++ cont)%string.
    rewrite split_from_marker, split_from_no_separator by exact Hc.
    reflexivity.
  - change (String c pre ++ App.marker ++ cont)%string
      with (String c (pre ++ App.marker ++ cont)%string).
    cbn [App.split_from]. simpl in Hs. destruct skip as [|n].
    + destruct (prefixb App.marker (String c (pre ++ App.marker ++ cont)))
        eqn:Ep.
      * rewrite last_cons_nonempty by apply split_from_nonempty.
        apply IH.
        destruct (marker_no_overlap (String c pre) cont Ep) as [H|H];
          [discriminate|].
        simpl in H. change (String.length App.marker) with 12%nat. lia.
      * apply IH. lia.
    + apply IH. lia.
Qed.

(** X19.  When the model returns a text, [generate_response] returns a
    text in which the marker [<assistant>:] does not occur and which
    neither starts nor ends with white space. *)
Theorem generated_response_clean mdl q s raw :
  App.load_model mdl = None ->
  App.complete mdl (App.format_prompt q) = App.Done raw ->
  exists text,
    fst (App.generate_response mdl q s) = App.Done text /\
    ~ substring App.marker text /\
    App.lstrip text = text /\ App.rstrip text = text.
Proof.
  intros Hl Hc. unfold App.generate_response. rewrite Hl, Hc. cbn [fst].
  eexists. split; [reflexivity|]. split; [|apply strip_clean].
  intro H.
  destruct (strip_infix (last (App.split App.marker raw) EmptyString))
    as (pre & post & E).
  apply (split_last_clean App.marker raw marker_not_empty).
  rewrite E. now apply substring_trans.
Qed.

Lemma generated_response_clean_witness :
  exists text,
    fst (App.generate_response
           (App.mkModel None (fun p => App.Done (p ++ " AI is... ")%string))
           "What is AI?" (App.mkSession [] "c1" false None))
    = App.Done text /\
    ~ substring App.marker text.
Proof.
  destruct (generated_response_clean
              (App.mkModel None (fun p => App.Done (p ++ " AI is... ")%string))
              "What is AI?" (App.mkSession [] "c1" false None)
              (App.format_prompt "What is AI?" ++ " AI is... ")%string
              eq_refl eq_refl) as (text & E & Hm & _).
  exists text. split; [exact E|exact Hm].
Defined.

(** X20.  When the model returns the prompt followed by a continuation in
    which the marker does not occur, [generate_response] returns the
    continuation with the white space at its ends removed, whatever the
    question holds (the marker included). *)
Theorem response_drops_prompt_echo mdl q s cont :
  App.load_model mdl = None ->
  App.complete mdl (App.format_prompt q)
  = App.Done (App.format_prompt q ++ cont)%string ->
  ~ substring App.marker cont ->
  fst (App.generate_response mdl q s) = App.Done (App.strip cont).
Proof.
  intros Hl Hc Hn. unfold App.generate_response. rewrite Hl, Hc. cbn [fst].
  do 2 f_equal. unfold App.split, App.format_prompt.
  rewrite <- !append_assoc.
  rewrite (append_assoc _ App.marker cont).
  apply split_from_past_prompt; [|lia].
  destruct (substringb App.marker cont) eqn:E; [|reflexivity].
  exfalso. apply Hn. now apply substringb_iff.
Qed.

Lemma response_drops_prompt_echo_witness :
  fst (App.generate_response
         (App.mkModel None (fun p => App.Done (p ++ " It is this. ")%string))
         "What does <assistant>: mean?" (App.mkSession [] "c1" false None))
  = App.Done "It is this.".
Proof.
  apply (response_drops_prompt_echo
           (App.mkModel None (fun p => App.Done (p ++ " It is this. ")%string))
           "What does <assistant>: mean?" (App.mkSession [] "c1" false None)
           " It is this. ").
  - reflexivity.
  - reflexivity.
  - intro H. apply substringb_iff in H. vm_compute in H. discriminate.
Defined.

(* ================================================================= *)
(** ** The buttons *)

Lemma generate_response_keeps_session mdl q s :
  App.chat_history (snd (App.generate_response mdl q s)) = App.chat_history s /\
  App.current_chat_id (snd (App.generate_response mdl q s))
  = App.current_chat_id s.
Proof.
  unfold App.generate_response. destruct (App.load_model mdl); [now split|].
  destruct (App.complete mdl (App.format_prompt q)); now split.
Qed.

Lemma index_free_when_later t c ts :
  Forall (fun m => timestamp m < ts) t -> Sql.index_taken t c ts = false.
Proof.
  intro H. destruct (Sql.index_taken t c ts) eqn:E; [|reflexivity].
  apply index_taken_iff in E. destruct E as (m & Hm & _ & Ht).
  rewrite Forall_forall in H. specialize (H m Hm). lia.
Qed.

Lemma on_send_eq mdl f clk shown input s d :
  input <> "" ->
  App.on_send mdl f clk shown input s d =
  match App.generate_response mdl input s with
  | (App.Thrown e, s') => (App.Thrown e, s', d)
  | (App.Done response, s') =>
      (App.Done tt,
       App.mkSession (App.mkEntry input response shown :: App.chat_history s')
                     (App.current_chat_id s') (App.model_loaded s') (Some ""),
       snd (save_message f clk input response (App.current_chat_id s') d))
  end.
Proof.
  intro H. unfold App.on_send. now rewrite (nonempty_eqb input H).
Qed.

(** X21.  "Send" with a text, a model that answers, a storage medium that
    works and a clock that has moved on: the session history gets the
    exchange in front, and the stored history of the current conversation
    starts with a message of the same question and answer. *)
Theorem send_keeps_session_and_store_in_step
    mdl f f' clk shown input s d response s1 :
  input <> "" ->
  App.generate_response mdl input s = (App.Done response, s1) ->
  healthy f = true ->
  healthy f' = true ->
  Forall (fun m => timestamp m < now clk) (rows d) ->
  let r := App.on_send mdl f clk shown input s d in
  fst (fst r) = App.Done tt /\
  App.chat_history (snd (fst r))
  = App.mkEntry input response shown :: App.chat_history s /\
  App.current_chat_id (snd (fst r)) = App.current_chat_id s /\
  exists m before,
    fst (get_chat_history f' (Some (App.current_chat_id s))
           default_history_limit (snd r)) = Returned (m :: before) /\
    question m = input /\ answer m = response /\
    chat_id m = App.current_chat_id s.
Proof.
  intros Hin Hgen Hf Hf' Hclk. cbv zeta. rewrite on_send_eq by exact Hin.
  destruct (generate_response_keeps_session mdl input s) as [Hh Hc].
  rewrite Hgen in *. cbn [fst snd] in *.
  cbn [App.chat_history App.current_chat_id]. rewrite Hh, Hc.
  split; [reflexivity|]. split; [reflexivity|]. split; [reflexivity|].
  destruct (history_cons_after_save f f' clk input response
              (App.current_chat_id s)
              default_history_limit d) as (before & _ & E); auto.
  - rewrite save_message_eq, (healthy_not_fails _ _ Hf),
      index_free_when_later by exact Hclk. reflexivity.
  - unfold default_history_limit. lia.
  - exists (new_row (rows d) clk input response (App.current_chat_id s)), before.
    split; [exact E|]. repeat split.
Qed.

Lemma send_keeps_session_and_store_in_step_witness :
  exists m before,
    fst (get_chat_history no_faults (Some "c1") default_history_limit
           (snd (App.on_send
                   (App.mkModel None
                      (fun p => App.Done (p ++ " More info")%string))
                   no_faults (Scenario.at_time 2) 3 "Follow-up"
                   (App.mkSession [] "c1" true None) Scenario.db1)))
    = Returned (m :: before) /\
    question m = "Follow-up" /\ answer m = "More info".
Proof.
  destruct (send_keeps_session_and_store_in_step
              (App.mkModel None (fun p => App.Done (p ++ " More info")%string))
              no_faults no_faults (Scenario.at_time 2) 3 "Follow-up"
              (App.mkSession [] "c1" true None) Scenario.db1
              "More info" (App.mkSession [] "c1" true None))
    as (_ & _ & _ & m & before & E & Hq & Ha & _).
  - discriminate.
  - reflexivity.
  - reflexivity.
  - reflexivity.
  - vm_compute. repeat constructor.
  - exists m, before. auto.
Defined.

(** X22.  "Send" does not look at what [save_message] returns: when the
    save fails (the storage medium fails, or the conversation already has
    a message with this timestamp) the exchange is put in front of the
    session history all the same, and the stored rows stay as they were. *)
Theorem failed_save_is_still_shown mdl f clk shown input s d response s1 :
  input <> "" ->
  App.generate_response mdl input s = (App.Done response, s1) ->
  storage_fails f d = true \/
  Sql.index_taken (rows d) (App.current_chat_id s) (now clk) = true ->
  let r := App.on_send mdl f clk shown input s d in
  fst (fst r) = App.Done tt /\
  App.chat_history (snd (fst r))
  = App.mkEntry input response shown :: App.chat_history s /\
  rows (snd r) = rows d.
Proof.
  intros Hin Hgen Hfail. cbv zeta. rewrite on_send_eq by exact Hin.
  destruct (generate_response_keeps_session mdl input s) as [Hh Hc].
  rewrite Hgen in *. cbn [fst snd] in *.
  cbn [App.chat_history]. rewrite Hh, Hc.
  split; [reflexivity|]. split; [reflexivity|].
  rewrite save_message_eq.
  replace (storage_fails f d ||
           Sql.index_taken (rows d) (App.current_chat_id s) (now clk))
    with true; [reflexivity|].
  symmetry. now apply orb_true_iff.
Qed.

Lemma failed_save_is_still_shown_witness :
  App.chat_history
    (snd (fst (App.on_send
                 (App.mkModel None (fun p => App.Done (p ++ " Lost")%string))
                 Scenario.offline (Scenario.at_time 3) 3 "Third"
                 (App.mkSession [] "c1" true None) Scenario.db2)))
  = [App.mkEntry "Third" "Lost" 3] /\
  rows (snd (App.on_send
               (App.mkModel None (fun p => App.Done (p ++ " Lost")%string))
               Scenario.offline (Scenario.at_time 3) 3 "Third"
               (App.mkSession [] "c1" true None) Scenario.db2))
  = rows Scenario.db2.
Proof.
  destruct (failed_save_is_still_shown
              (App.mkModel None (fun p => App.Done (p ++ " Lost")%string))
              Scenario.offline (Scenario.at_time 3) 3 "Third"
              (App.mkSession [] "c1" true None) Scenario.db2
              "Lost" (App.mkSession [] "c1" true None))
    as (_ & Hs & Hd).
  - discriminate.
  - reflexivity.
  - now left.
  - split; [exact Hs|exact Hd].
Defined.

(** X23.  A failure of the model that derives from [Exception] is stored
    like an answer: "Send" then saves a row whose answer is the apology
    text with [str(e)] in it, and shows the same text in the session. *)
Theorem send_stores_apology mdl f clk shown input s d e :
  input <> "" ->
  App.load_model mdl = Some e \/
  (App.load_model mdl = None /\
   App.complete mdl (App.format_prompt input) = App.Thrown e) ->
  App.derives_from_Exception e = true ->
  storage_fails f d = false ->
  Sql.index_taken (rows d) (App.current_chat_id s) (now clk) = false ->
  let r := App.on_send mdl f clk shown input s d in
  fst (fst r) = App.Done tt /\
  (exists rest, App.chat_history (snd (fst r))
                = App.mkEntry input (App.apology e) shown :: rest) /\
  exists m, rows (snd r) = rows d ++ [m] /\
            question m = input /\ answer m = App.apology e /\
            chat_id m = App.current_chat_id s.
Proof.
  intros Hin Hfail He Hf Hfree. cbv zeta. rewrite on_send_eq by exact Hin.
  assert (exists s', App.generate_response mdl input s
                     = (App.Done (App.apology e), s') /\
                     App.current_chat_id s' = App.current_chat_id s)
    as (s' & Hgen & Hc).
  { unfold App.generate_response, App.on_error.
    destruct Hfail as [Hl|[Hl Hc]]; rewrite Hl; [|rewrite Hc]; rewrite He;
      eexists; split; reflexivity. }
  rewrite Hgen, Hc. cbn [fst snd App.chat_history].
  split; [reflexivity|]. split; [eexists; reflexivity|].
  rewrite save_message_eq, Hf, Hfree. cbn [orb snd rows].
  eexists. split; [reflexivity|]. repeat split.
Qed.

Lemma send_stores_apology_witness :
  exists m,
    rows (snd (App.on_send
                 (App.mkModel (Some (App.mkError true "out of memory"))
                              (fun p => App.Done p))
                 no_faults (Scenario.at_time 3) 3 "Third"
                 (App.mkSession [] "c1" false None) Scenario.db2))
    = rows Scenario.db2 ++ [m] /\
    answer m = "I apologize, but I encountered an error: out of memory".
Proof.
  destruct (send_stores_apology
              (App.mkModel (Some (App.mkError true "out of memory"))
                           (fun p => App.Done p))
              no_faults (Scenario.at_time 3) 3 "Third"
              (App.mkSession [] "c1" false None) Scenario.db2
              (App.mkError true "out of memory"))
    as (_ & _ & m & Hr & _ & Ha & _).
  - discriminate.
  - now left.
  - reflexivity.
  - reflexivity.
  - reflexivity.
  - exists m. split; [exact Hr|exact Ha].
Defined.

(** X24.  "Clear Chat" deletes only when the session history shows
    something: with an empty session history nothing is deleted, whatever
    the store holds for the current conversation; otherwise, the storage
    medium working, the session history is emptied, the rows of the
    current conversation are removed and every other row is kept. *)
Theorem clear_chat_effect f s d :
  (App.chat_history s = [] -> App.on_clear f s d = (s, d)) /\
  (App.chat_history s <> [] ->
   healthy f = true ->
   App.chat_history (fst (App.on_clear f s d)) = [] /\
   App.current_chat_id (fst (App.on_clear f s d)) = App.current_chat_id s /\
   forall m, In m (rows (snd (App.on_clear f s d))) <->
             In m (rows d) /\ chat_id m <> App.current_chat_id s).
Proof.
  unfold App.on_clear. split.
  - now intros ->.
  - intros Hne Hf. destruct (App.chat_history s); [congruence|].
    cbn [fst snd App.chat_history App.current_chat_id].
    split; [reflexivity|]. split; [reflexivity|].
    intro m. rewrite delete_chat_eq, (healthy_not_fails _ _ Hf).
    cbn [snd rows]. rewrite filter_In, negb_true_iff.
    unfold in_chat. now rewrite String.eqb_neq.
Qed.

Lemma clear_chat_effect_witness :
  App.on_clear no_faults (App.mkSession [] "c1" true None) Scenario.db2
  = (App.mkSession [] "c1" true None, Scenario.db2) /\
  rows (snd (App.on_clear no_faults
               (App.mkSession [App.mkEntry "Follow-up" "More info" 3] "c1"
                              true None) Scenario.db4))
  = [Scenario.row3; Scenario.row4].
Proof.
  split.
  - apply (clear_chat_effect no_faults (App.mkSession [] "c1" true None)
             Scenario.db2). reflexivity.
  - reflexivity.
Defined.

(* ================================================================= *)
(** ** Limits and patterns the storage engine refuses *)

(** X25.  A limit that does not fit 64 bits cannot be bound: with such a
    limit [get_chat_history] and [search_messages] return the empty list,
    whatever is stored. *)
Theorem limit_out_of_range_gives_nothing f c q k d :
  k < - 2 ^ 63 \/ 2 ^ 63 - 1 < k ->
  fst (get_chat_history f c k d) = Returned [] /\
  fst (search_messages f q k d) = Returned [].
Proof.
  intro Hk.
  assert (Sql.in_int64 k = false) as E.
  { destruct (Sql.in_int64 k) eqn:E; [|reflexivity].
    apply in_int64_iff in E. lia. }
  rewrite get_chat_history_eq, search_messages_eq.
  unfold search_fails, query_fails. rewrite E. cbn [negb fst].
  rewrite !orb_true_r. split; reflexivity.
Qed.

Lemma limit_out_of_range_gives_nothing_witness :
  fst (get_chat_history no_faults (Some "c1") (2 ^ 63) Scenario.db2)
  = Returned [] /\
  fst (search_messages no_faults "AI" (2 ^ 63) Scenario.db2) = Returned [].
Proof.
  apply (limit_out_of_range_gives_nothing no_faults (Some "c1") "AI" (2 ^ 63)
           Scenario.db2).
  right. lia.
Defined.

Lemma like_ends_with_empty s : Sql.like_ends_with s "" = true.
Proof.
  induction s as [|c s IH]; cbn [Sql.like_ends_with Sql.like_equal];
    [reflexivity|exact IH].
Qed.

(** X26.  A NUL character ends the text [LIKE] reads: a search whose
    query starts with a NUL character matches every message and returns
    what [get_chat_history(None, k)] returns, provided its pattern has at
    most 50000 bytes; and a search whose pattern is longer than that
    returns the empty list. *)
Theorem search_reads_up_to_nul f q k d :
  (Sql.pattern_too_complex (String Ascii.zero q) = false ->
   fst (search_messages f (String Ascii.zero q) k d)
   = fst (get_chat_history f None k d)) /\
  (Sql.pattern_too_complex q = true ->
   fst (search_messages f q k d) = Returned []).
Proof.
  split; intro Hp; rewrite search_messages_eq; unfold search_fails;
    rewrite Hp.
  - rewrite get_chat_history_eq, orb_false_r. cbn [fst].
    rewrite (filter_ext (matches (String Ascii.zero q)) (fun _ => true));
      [reflexivity|].
    intro m. unfold matches, Sql.contains.
    cbn [Sql.has_nul Sql.c_string Ascii.eqb Ascii.zero Bool.eqb orb].
    now rewrite like_ends_with_empty.
  - now rewrite orb_true_r.
Qed.

Lemma search_reads_up_to_nul_witness :
  fst (search_messages no_faults (String Ascii.zero "AI") 10 Scenario.db4)
  = fst (get_chat_history no_faults None 10 Scenario.db4).
Proof.
  apply (search_reads_up_to_nul no_faults "AI" 10 Scenario.db4).
  vm_compute. reflexivity.
Defined.
